(** * neurokin: event detection and stimulation-block parsing

    A shallow embedding of the signal-processing core of
    [neurokin/utils/neural/processing.py], of [time_to_sample] from
    [utils/importing.py] and of the marker validation of
    [KinematicDataRun.compute_gait_cycles_bounds], together with the
    properties the specification states about them.

    Numbers.  A [np.float64] sample is modelled as an exact rational
    extended with not-a-number ([NaN]), the one special value the source
    itself inspects ([np.isnan]).  Rounding error and the two infinities are
    outside this model: every statement below is about exact arithmetic.
    Integer arrays (indices, counts) are lists of [Z].

    Errors.  A Python exception is a value of [exn]; a function that may
    raise returns [result A = exn + A]. *)

From Stdlib Require Import QArith Qcanon Qround ZArith Lia Lqa.
From stdpp Require Import base tactics option list numbers strings sorting.

Local Open Scope Z_scope.
Local Open Scope list_scope.

(** ** Exceptions *)

Inductive exn :=
  | ValueError (msg : string)
  | IndexError (msg : string)
  | KeyError (key : string)
  | ZeroDivisionError.

Definition result (A : Type) : Type := exn + A.

Definition ok {A} (a : A) : result A := inr a.
Definition raise {A} (e : exn) : result A := inl e.

Definition bind {A B} (r : result A) (k : A -> result B) : result B :=
  match r with
  | inl e => inl e
  | inr a => k a
  end.

Notation "'let*' x ':=' r 'in' k" := (bind r (fun x => k))
  (at level 10, x name, r at level 100, k at level 200).

Definition is_ValueError {A} (r : result A) : Prop :=
  exists msg, r = inl (ValueError msg).

(** The line-feed character of Python's ["\n"]. *)
Definition nl : string := String (Ascii.ascii_of_nat 10) EmptyString.

(** ** Floating-point samples *)

Module Float.

Inductive float :=
  | NaN
  | Fin (q : Qc).

Definition of_Z (z : Z) : float := Fin (Qc_of_Z z).
Definition of_nat (n : nat) : float := of_Z (Z.of_nat n).

Definition is_nan (a : float) : bool :=
  match a with NaN => true | Fin _ => false end.

Definition add (a b : float) : float :=
  match a, b with
  | Fin x, Fin y => Fin (x + y)%Qc
  | _, _ => NaN
  end.

Definition sub (a b : float) : float :=
  match a, b with
  | Fin x, Fin y => Fin (x - y)%Qc
  | _, _ => NaN
  end.

(** [0 / 0] is NaN.  A non-zero numerator over zero is an infinity in
    IEEE 754, which this model does not have; the functions below only
    ever divide by a zero count when the numerator is an empty sum. *)
Definition div (a b : float) : float :=
  match a, b with
  | Fin x, Fin y => if decide (y = 0%Qc) then NaN else Fin (x / y)%Qc
  | _, _ => NaN
  end.

Definition Qcabs (x : Qc) : Qc :=
  if decide (x < 0)%Qc then (- x)%Qc else x.

Definition abs (a : float) : float :=
  match a with
  | Fin x => Fin (Qcabs x)
  | NaN => NaN
  end.

(** Comparisons with NaN are false, as in Python. *)
Definition ltb (a b : float) : bool :=
  match a, b with
  | Fin x, Fin y => bool_decide (x < y)%Qc
  | _, _ => false
  end.

Definition leb (a b : float) : bool :=
  match a, b with
  | Fin x, Fin y => bool_decide (x <= y)%Qc
  | _, _ => false
  end.

Definition sum (l : list float) : float := foldr add (Fin 0%Qc) l.

End Float.

Import Float.

(** ** The numpy and Python primitives the source calls *)

Module Np.

Section Slicing.
Context {A : Type}.

(** Python maps a slice bound [i] of a sequence of length [n] to a
    position in [0, n]: a negative bound counts from the end. *)
Definition slice_bound (n : nat) (i : Z) : nat :=
  if i <? 0 then Z.to_nat (Z.max 0 (Z.of_nat n + i))
  else Z.to_nat (Z.min i (Z.of_nat n)).

(** [l[start:stop]]; [None] is an omitted bound. *)
Definition slice (l : list A) (start stop : option Z) : list A :=
  let n := length l in
  let s := from_option (slice_bound n) 0%nat start in
  let e := from_option (slice_bound n) n stop in
  take (e - s) (drop s l).

(** [l[::2]] *)
Fixpoint every_other (l : list A) : list A :=
  match l with
  | [] => []
  | x :: l' =>
      x :: match l' with
           | [] => []
           | _ :: l'' => every_other l''
           end
  end.

(** [l[k], l[k + step], ...] for a positive stride, [skip] elements
    still to pass over before the next one is kept. *)
Fixpoint stride_from (skip step : nat) (l : list A) : list A :=
  match l with
  | [] => []
  | x :: l' =>
      match skip with
      | O => x :: stride_from step step l'
      | S k => stride_from k step l'
      end
  end.

(** [l[0:len(l):step]]: a zero step raises, a negative one walks
    from 0 downwards and selects nothing. *)
Definition slice_step (l : list A) (step : Z) : result (list A) :=
  if step =? 0 then raise (ValueError "slice step cannot be zero")
  else if step <? 0 then ok []
  else ok (stride_from 0 (Z.to_nat step - 1) l).
End Slicing.

(** [np.diff(a, prepend=p)] on a boolean array: element [i] tells
    whether [a[i]] differs from its predecessor, [p] preceding [a[0]]. *)
Definition diff_bool (prepend : bool) (a : list bool) : list bool :=
  zip_with xorb a (prepend :: a).

(** [np.where(mask)[0]] *)
Fixpoint where_from (i : Z) (mask : list bool) : list Z :=
  match mask with
  | [] => []
  | b :: mask' =>
      if b then i :: where_from (i + 1) mask'
      else where_from (i + 1) mask'
  end.

Definition where_ (mask : list bool) : list Z := where_from 0 mask.

(** [np.mean] of a one-dimensional array; NaN on an empty one. *)
Definition mean (a : list float) : float :=
  Float.div (Float.sum a) (Float.of_nat (length a)).

End Np.

(** ** [processing.py]: binarisation and edge detection *)

Definition simply_mean_data_binarize (sync_ch : list float) : list Z :=
  let mean := Np.mean sync_ch in
  map (fun i => if Float.ltb i mean then 0 else 1) sync_ch.

(** Python's truth value of an optional integer argument: [None] and [0]
    are false. *)
Definition truthy (n : option Z) : bool :=
  match n with
  | None => false
  | Some k => negb (k =? 0)
  end.

Definition get_stim_timestamps (sync_ch : list float)
    (expected_pulses : option Z) : list Z :=
  let threshold_crossing :=
    Np.diff_bool false (map (fun v => Float.ltb (Fin 0%Qc) v) sync_ch) in
  let idxs_edges := Np.where_ threshold_crossing in
  let stim_starts := Np.every_other idxs_edges in
  if truthy expected_pulses
  then Np.slice stim_starts None expected_pulses
  else stim_starts.

(** ** [importing.py]: seconds to sample index *)

(** [np.floor] and [np.ceil] of a finite number, as integers. *)
Definition np_floor (x : Qc) : Z := Qfloor x.
Definition np_ceil (x : Qc) : Z := Qceiling x.

(** [np.round]: to the nearest integer, a tie going to the even one. *)
Definition np_round (x : Qc) : Z :=
  let f := Qfloor x in
  let r := (x - Qc_of_Z f)%Qc in
  if decide (r < Q2Qc (1 # 2))%Qc then f
  else if decide (Q2Qc (1 # 2) < r)%Qc then f + 1
  else if Z.even f then f else f + 1.

(** [np.uint64] of an integral value: 64 bits, wrapping around. *)
Definition np_uint64 (z : Z) : Z := z mod 2 ^ 64.

Definition giga : Qc := Qc_of_Z 1000000000.

Definition time_to_sample (timestamp fs : Qc) (is_t1 is_t2 : bool) : Z :=
  let sample := (timestamp * fs)%Qc in
  let sample :=
    if is_t2 then
      let exact := (Qc_of_Z (np_round (sample * giga)) / giga)%Qc in
      let sample := np_floor sample in
      if decide (exact = Qc_of_Z sample) then sample - 1 else sample
    else if is_t1 then np_ceil sample
    else np_round sample in
  np_uint64 sample.

(** ** [processing.py]: stimulation blocks *)

(** The part of a [NeuralData] object the function reads.  [sync_data]
    holds the samples of a one-dimensional sync channel and [sync_shape]
    is its numpy shape. *)
Record NeuralData := {
  sync_data : list float;
  sync_shape : list nat;
  fs : Qc
}.

Definition multichannel_msg : string :=
  "Warning: depending on the experiment setting the sync data might be a multichannel array "
  +:+ nl
  +:+ "please use the .pick_sync_data(idx) method to pick the correct sync channel.".

(** The onsets are signed and [stim_len] is unsigned 64-bit; numpy adds
    them as numbers, which is the sum in [Z]. *)
Definition get_timestamps_stim_blocks (neudata : NeuralData)
    (n_amp_tested pulses : Z) (time_stim : Qc) : result (list (Z * Z)) :=
  if decide (1 < length (sync_shape neudata))%nat
  then raise (ValueError multichannel_msg)
  else
    let total_pulses := n_amp_tested * pulses in
    let sync := get_stim_timestamps (sync_data neudata) (Some total_pulses) in
    let* onset := Np.slice_step sync pulses in
    let stim_len := time_to_sample time_stim (fs neudata) false true in
    ok (map (fun o => (o, o + stim_len)) onset).

(** ** [processing.py]: smoothing and chunking *)

Module Arr.

(** [np.cumsum] *)
Fixpoint cumsum_from (acc : float) (a : list float) : list float :=
  match a with
  | [] => []
  | x :: a' => let acc' := Float.add acc x in acc' :: cumsum_from acc' a'
  end.

Definition cumsum (a : list float) : list float :=
  match a with
  | [] => []
  | x :: a' => x :: cumsum_from x a'
  end.

(** [a - b] on one-dimensional arrays, with numpy's broadcasting of a
    length-one operand. *)
Definition subtract (a b : list float) : result (list float) :=
  if decide (length a = length b) then ok (zip_with Float.sub a b)
  else match a, b with
       | [x], _ => ok (map (fun y => Float.sub x y) b)
       | _, [y] => ok (map (fun x => Float.sub x y) a)
       | _, _ => raise (ValueError "operands could not be broadcast together")
       end.

(** [np.split(ary, indices)]: the pieces between consecutive division
    points [0, indices..., len(ary)], each taken with a Python slice. *)
Fixpoint split_from {A} (ary : list A) (st : Z) (ends : list Z)
    : list (list A) :=
  match ends with
  | [] => []
  | e :: ends' => Np.slice ary (Some st) (Some e) :: split_from ary e ends'
  end.

Definition split {A} (ary : list A) (indices : list Z) : list (list A) :=
  split_from ary 0 (indices ++ [Z.of_nat (length ary)]).

Definition same_length {A} (rows : list (list A)) : bool :=
  match rows with
  | [] => true
  | r :: rows' => forallb (fun r' => Nat.eqb (length r') (length r)) rows'
  end.

(** [np.vstack] of one-dimensional arrays. *)
Definition vstack {A} (rows : list (list A)) : result (list (list A)) :=
  match rows with
  | [] => raise (ValueError "need at least one array to concatenate")
  | _ =>
      if same_length rows then ok rows
      else raise (ValueError "all the input array dimensions except for the concatenation axis must match exactly")
  end.

(** Python's [min] of a non-empty list of lengths. *)
Definition min_len (lens : list nat) : nat :=
  match lens with
  | [] => 0%nat
  | n :: lens' => foldr Nat.min n lens'
  end.

End Arr.

Definition running_mean (x : list float) (n : Z) : result (list float) :=
  let cumsum := Arr.cumsum (Fin 0%Qc :: x) in
  let* d := Arr.subtract (Np.slice cumsum (Some n) None)
                         (Np.slice cumsum None (Some (- n))) in
  ok (map (fun v => Float.div v (Float.of_Z n)) d).

(** [min(lens)] is evaluated once per element of [raw], so an empty
    [raw] never reaches Python's error for [min] of an empty list. *)
Definition trim_equal_len {A} (raw : list (list A)) : list (list A) :=
  let lens := map length raw in
  map (fun r => Np.slice r None (Some (Z.of_nat (Arr.min_len lens)))) raw.

Definition parse_raw {A} (raw : list A) (stimulation_idxs : list Z)
    (samples_before_stim : Z) (skip_one : bool) (min_len_chunk : Z)
    : result (list (list A)) :=
  let stimulation_idxs :=
    map (fun i => i - samples_before_stim) stimulation_idxs in
  match stimulation_idxs with
  | [] => raise (IndexError "index 0 is out of bounds for axis 0 with size 0")
  | first :: others =>
      let stimulation_idxs :=
        if first <? 0 then 0 :: others else stimulation_idxs in
      let stimulation_idxs :=
        if skip_one then Np.every_other stimulation_idxs
        else stimulation_idxs in
      let split_raw :=
        Np.slice (Arr.split raw stimulation_idxs) (Some 1) None in
      let split_raw :=
        List.filter (fun chunk => min_len_chunk <=? Z.of_nat (length chunk))
          split_raw in
      let leveled_list := trim_equal_len split_raw in
      Arr.vstack leveled_list
  end.

(** ** [processing.py]: averaging by amplitude *)

(** A two-dimensional array: [rows] are its rows and [ncols] is the
    second component of its shape, which a slice without rows keeps. *)
Record matrix := {
  ncols : nat;
  rows : list (list float)
}.

(** Column [j] of a matrix. *)
Definition column (m : matrix) (j : nat) : list float :=
  map (fun r => default NaN (r !! j)) (rows m).

(** [np.mean(m, axis=0)]: the mean of every column. *)
Definition mean_axis0 (m : matrix) : list float :=
  map (fun j => Np.mean (column m j)) (seq 0 (ncols m)).

(** [m[start:stop]] *)
Definition row_slice (m : matrix) (start stop : Z) : matrix :=
  {| ncols := ncols m;
     rows := Np.slice (rows m) (Some start) (Some stop) |}.

Definition average_block (array : matrix) (start stop : Z) : list float :=
  let parsed := row_slice array start stop in
  let averaged := mean_axis0 parsed in
  averaged.

(** [int(a / b)] for two lengths: true division, then truncation. *)
Definition int_div (a b : nat) : result Z :=
  if decide (b = 0%nat) then raise ZeroDivisionError
  else ok (Z.quot (Z.of_nat a) (Z.of_nat b)).

Definition get_average_amplitudes {A} (parsed_raw : matrix)
    (tested_amplitudes : list A) (pulses_number : option Z)
    : result (list (list float)) :=
  let number_tested_amplitudes := length tested_amplitudes in
  if decide (number_tested_amplitudes = 1%nat) then
    let averaged_amp :=
      average_block parsed_raw 0 (Z.of_nat (length (rows parsed_raw))) in
    ok [averaged_amp]
  else
    let* pulses_number :=
      if truthy pulses_number then ok (default 0 pulses_number)
      else int_div (length (rows parsed_raw)) (length tested_amplitudes) in
    ok (map (fun i : nat =>
               let start := Z.of_nat i * pulses_number in
               let stop := (Z.of_nat i + 1) * pulses_number in
               average_block parsed_raw start stop)
            (seq 0 number_tested_amplitudes)).

(** ** [processing.py]: index search *)

(** [ndarray.argmin] of a one-dimensional float array: the first NaN if
    there is one, otherwise the first smallest element. *)
Fixpoint argmin_loop (mp : float) (min_ind i : nat) (ip : list float) : nat :=
  match ip with
  | [] => min_ind
  | x :: ip' =>
      if negb (Float.leb mp x) then
        if Float.is_nan x then i
        else argmin_loop x i (S i) ip'
      else argmin_loop mp min_ind (S i) ip'
  end.

Definition argmin (a : list float) : result nat :=
  match a with
  | [] => raise (ValueError "attempt to get argmin of an empty sequence")
  | mp :: a' =>
      if Float.is_nan mp then ok 0%nat
      else ok (argmin_loop mp 0%nat 1%nat a')
  end.

Definition nan_msg : string :=
  "The input array contains nan which will always return as the nearest to datapoint".

Definition find_closest_index (data : list float) (datapoint : float)
    : result nat :=
  if existsb Float.is_nan data then raise (ValueError nan_msg)
  else
    let idx := argmin (map (fun d => Float.abs (Float.sub d datapoint)) data) in
    idx.

(** [min_difference] starts as [np.inf], here [None]; afterwards it holds
    an absolute difference.  [a < np.inf] holds for every number [a] and
    fails for NaN. *)
Definition lt_min_difference (a : float) (min_difference : option float)
    : bool :=
  match min_difference with
  | None => negb (Float.is_nan a)
  | Some m => Float.ltb a m
  end.

(** The loop of [find_closest_smaller_index] from index [i] on. *)
Fixpoint closest_smaller_loop (datapoint : float)
    (min_difference : option float) (idx i : nat) (data : list float) : nat :=
  match data with
  | [] => idx
  | d :: data' =>
      if lt_min_difference (Float.abs (Float.sub d datapoint)) min_difference
      then
        if Float.ltb d datapoint
        then closest_smaller_loop datapoint
               (Some (Float.abs (Float.sub d datapoint))) i (S i) data'
        else closest_smaller_loop datapoint min_difference idx (S i) data'
      else closest_smaller_loop datapoint min_difference idx (S i) data'
  end.

Definition find_closest_smaller_index (data : list float)
    (datapoint : float) : nat :=
  closest_smaller_loop datapoint None 0%nat 0%nat data.

(** ** [kinematic_data.py]: gait-cycle bounds of a run *)

Module Kinematics.

(** Sample indices of one kind of event. *)
Definition events : Type := list Z.

(** [sep.join(l)] *)
Fixpoint join (sep : string) (l : list string) : string :=
  match l with
  | [] => EmptyString
  | x :: l' =>
      match l' with
      | [] => x
      | _ :: _ => x +:+ sep +:+ join sep l'
      end
  end.

(** [Index.unique()]: the distinct values, in order of first appearance. *)
Fixpoint unique_from (seen l : list string) : list string :=
  match l with
  | [] => []
  | x :: l' =>
      if bool_decide (x ∈ seen) then unique_from seen l'
      else x :: unique_from (x :: seen) l'
  end.

Definition unique (l : list string) : list string := unique_from [] l.

Definition left_marker_msg (left_marker : string) (names : list string)
    : string :=
  "The left reference marker " +:+ left_marker
  +:+ " is not among the markers."
  +:+ (nl +:+ " Please select one among the following: " +:+ nl)
  +:+ join ", " names.

Definition right_marker_msg (right_marker : string) (names : list string)
    : string :=
  "The right reference marker " +:+ right_marker
  +:+ " is not among the markers."
  +:+ (nl +:+ " Please select one among the following: " +:+ nl)
  +:+ join ", " names.

(** The three lift, land and peak series of one limb. *)
Definition toe_events : Type := events * events * events.

(** A column label of the marker table: scorer, body part, coordinate. *)
Record label := {
  scorer_level : string;
  bodyparts_level : string;
  coords_level : string
}.

(** The fields of a [KinematicDataRun] that gait-cycle detection reads
    and writes. *)
Record KinematicDataRun := {
  markers_df : list (label * list float);
  run_fs : float;
  scorer : string;
  left_mtp_lift : option events;
  left_mtp_land : option events;
  left_mtp_max : option events;
  right_mtp_lift : option events;
  right_mtp_land : option events;
  right_mtp_max : option events
}.

(** [markers_df.columns.get_level_values("bodyparts")] *)
Definition bodyparts_of (self : KinematicDataRun) : list string :=
  map (fun c => bodyparts_level (fst c)) (markers_df self).

(** [markers_df[scorer][marker][axis]]: each of the three selections
    raises [KeyError] when no column carries the key at that level. *)
Definition select (df : list (label * list float))
    (scorer marker axis : string) : result (list float) :=
  let by_scorer :=
    List.filter (fun c => bool_decide (scorer_level (fst c) = scorer)) df in
  match by_scorer with
  | [] => raise (KeyError scorer)
  | _ =>
      let by_marker :=
        List.filter (fun c => bool_decide (bodyparts_level (fst c) = marker))
          by_scorer in
      match by_marker with
      | [] => raise (KeyError marker)
      | _ =>
          let by_axis :=
            List.filter (fun c => bool_decide (coords_level (fst c) = axis))
              by_marker in
          match by_axis with
          | [] => raise (KeyError axis)
          | c :: _ => ok (snd c)
          end
      end
  end.

Definition set_left (self : KinematicDataRun) (e : toe_events)
    : KinematicDataRun :=
  {| markers_df := markers_df self; run_fs := run_fs self;
     scorer := scorer self;
     left_mtp_lift := Some (fst (fst e));
     left_mtp_land := Some (snd (fst e));
     left_mtp_max := Some (snd e);
     right_mtp_lift := right_mtp_lift self;
     right_mtp_land := right_mtp_land self;
     right_mtp_max := right_mtp_max self |}.

Definition set_right (self : KinematicDataRun) (e : toe_events)
    : KinematicDataRun :=
  {| markers_df := markers_df self; run_fs := run_fs self;
     scorer := scorer self;
     left_mtp_lift := left_mtp_lift self;
     left_mtp_land := left_mtp_land self;
     left_mtp_max := left_mtp_max self;
     right_mtp_lift := Some (fst (fst e));
     right_mtp_land := Some (snd (fst e));
     right_mtp_max := Some (snd e) |}.

(** The marker table of the module at the repository root: one flat
    column per marker. *)
Record LegacyRun := {
  legacy_markers_df : list (string * list float);
  legacy_left : option toe_events;
  legacy_right : option toe_events
}.

Definition legacy_columns (self : LegacyRun) : list string :=
  map fst (legacy_markers_df self).

(** [markers_df[marker]] on a flat table. *)
Definition legacy_select (df : list (string * list float)) (marker : string)
    : result (list float) :=
  match List.filter (fun c => bool_decide (fst c = marker)) df with
  | [] => raise (KeyError marker)
  | c :: _ => ok (snd c)
  end.

Section EventDetection.

(** [event_detection.get_toe_lift_landing] lives outside the files
    modelled here; it is taken as given. *)
Variable get_toe_lift_landing : list float -> float -> toe_events.

(** [neurokin/kinematic_data.py].  The method mutates [self]; it returns
    the object as the call leaves it, with the exception raised if any. *)
Definition compute_gait_cycles_bounds (self : KinematicDataRun)
    (left_marker right_marker axis : string)
    : KinematicDataRun * result unit :=
  if negb (bool_decide (left_marker ∈ unique (bodyparts_of self))) then
    (self, raise (ValueError
       (left_marker_msg left_marker (unique (bodyparts_of self)))))
  else if negb (bool_decide (right_marker ∈ unique (bodyparts_of self))) then
    (self, raise (ValueError
       (right_marker_msg right_marker (unique (bodyparts_of self)))))
  else
    match select (markers_df self) (scorer self) left_marker axis with
    | inl e => (self, inl e)
    | inr left_trace =>
        let self := set_left self
          (get_toe_lift_landing left_trace (run_fs self)) in
        match select (markers_df self) (scorer self) right_marker axis with
        | inl e => (self, inl e)
        | inr right_trace =>
            (set_right self
               (get_toe_lift_landing right_trace (run_fs self)), ok tt)
        end
    end.

(** [kinematic_data.py] at the repository root. *)
Definition legacy_compute_gait_cycles_bounds (self : LegacyRun)
    (left_marker right_marker : string) (recording_fs : float)
    : LegacyRun * result unit :=
  if negb (bool_decide (left_marker ∈ legacy_columns self)) then
    (self, raise (ValueError
       (left_marker_msg left_marker (legacy_columns self))))
  else if negb (bool_decide (right_marker ∈ legacy_columns self)) then
    (self, raise (ValueError
       (right_marker_msg right_marker (legacy_columns self))))
  else
    match legacy_select (legacy_markers_df self) left_marker with
    | inl e => (self, inl e)
    | inr left_trace =>
        let self :=
          {| legacy_markers_df := legacy_markers_df self;
             legacy_left :=
               Some (get_toe_lift_landing left_trace recording_fs);
             legacy_right := legacy_right self |} in
        match legacy_select (legacy_markers_df self) right_marker with
        | inl e => (self, inl e)
        | inr right_trace =>
            ({| legacy_markers_df := legacy_markers_df self;
                legacy_left := legacy_left self;
                legacy_right :=
                  Some (get_toe_lift_landing right_trace recording_fs) |},
             ok tt)
        end
    end.

End EventDetection.

End Kinematics.

(** ** [processing.py]: median distance between points *)

(** The number a sample holds; only used where no NaN is left. *)
Definition finite_part (a : float) : Qc :=
  match a with
  | Fin q => q
  | NaN => 0%Qc
  end.

(** [np.median] of a one-dimensional array: NaN when the array is empty or
    holds a NaN; otherwise the middle one of the sorted values, or the mean
    of the two middle ones when their number is even. *)
Definition np_median (a : list float) : float :=
  if existsb Float.is_nan a then NaN
  else
    let sorted := merge_sort Qcle (map finite_part a) in
    let n := length sorted in
    if Nat.eqb n 0 then NaN
    else if Nat.even n then
      Float.div
        (Float.add (Fin (default 0%Qc (sorted !! (n / 2 - 1)%nat)))
                   (Fin (default 0%Qc (sorted !! (n / 2)%nat))))
        (Float.of_Z 2)
    else Fin (default 0%Qc (sorted !! (n / 2)%nat)).

Definition get_median_distance (a : list float) : float :=
  let distances :=
    map (fun i : nat =>
           Float.sub (default NaN (a !! i)) (default NaN (a !! (i + 1)%nat)))
        (seq 0 (length a - 1)) in
  Float.abs (np_median distances).

(** ** [importing.py]: reading TDT and Open Ephys recordings *)

Module Tdt.

(** What the two TDT readers raise. *)
Inductive error :=
  | AttributeError
  | Exception_ (msg : string)
  | UnboundLocalError (name : string).

(** One stream of a block: its two-dimensional data, channel by channel,
    and its sampling rate. *)
Record stream := {
  data : list (list float);
  fs : Qc
}.

(** The streams of the block [tdt.read_block] returns that the readers
    look at; an absent stream is an absent attribute.  Of [Wav1] only the
    one-dimensional [data] is read. *)
Record block := {
  LFP1 : option stream;
  EOG1 : option stream;
  NPr1 : option stream;
  Wav1 : option (list float)
}.

(** [import_tdt_channel_data], from the block read on: the stream is
    [LFP1], else [EOG1], else [NPr1]; every channel is cut to [s1:s2]. *)
Definition import_tdt_channel_data (blk : block) (t1 t2 : Qc)
    : error + (Qc * list (list float)) :=
  let found :=
    match LFP1 blk with
    | Some s => Some s
    | None =>
        match EOG1 blk with
        | Some s => Some s
        | None => NPr1 blk
        end
    end in
  match found with
  | None => inl AttributeError
  | Some s =>
      let raw := data s in
      let fs := fs s in
      let s1 :=
        if decide (t1 = 0%Qc) then 0
        else time_to_sample t1 fs true false in
      let s2 :=
        if decide (t2 = Qc_of_Z (-1)) then -1
        else time_to_sample t2 fs false true in
      inr (fs, map (fun channel => Np.slice channel (Some s1) (Some s2)) raw)
  end.

(** [import_tdt_stimulation_data], from the block read on.  [s1] and [s2]
    are only assigned when [t1] and [t2] differ from their defaults. *)
Definition import_tdt_stimulation_data (blk : block) (t1 t2 : Qc)
    : error + list float :=
  match Wav1 blk, LFP1 blk with
  | Some stim_data, Some lfp =>
      let fs := fs lfp in
      if decide (t1 = 0%Qc) then inl (UnboundLocalError "s1")
      else if decide (t2 = Qc_of_Z (-1)) then inl (UnboundLocalError "s2")
      else
        let s1 := time_to_sample t1 fs true false in
        let s2 := time_to_sample t2 fs false true in
        inr (Np.slice stim_data (Some s1) (Some s2))
  | _, _ => inl (Exception_ "No stimulation data found")
  end.

End Tdt.

Module OpenEphys.

(** [np.reshape(a, (n_ch, n_samples))] of a flat array, row by row. *)
Definition reshape {A} (a : list A) (n_ch n_samples : nat)
    : result (list (list A)) :=
  if decide ((n_ch * n_samples)%nat = length a)
  then ok (map (fun r : nat => take n_samples (drop (r * n_samples) a))
             (seq 0 n_ch))
  else raise (ValueError "cannot reshape array")%string.

(** The position an index of an array of [n] elements stands for; negative
    indices count from the end. *)
Definition position (n : nat) (i : Z) : option nat :=
  if decide (0 <= i < Z.of_nat n) then Some (Z.to_nat i)
  else if decide (- Z.of_nat n <= i < 0) then Some (Z.to_nat (Z.of_nat n + i))
  else None.

(** [mask[channels] = True] *)
Fixpoint set_true (mask : list bool) (channels : list Z)
    : result (list bool) :=
  match channels with
  | [] => ok mask
  | c :: channels' =>
      match position (length mask) c with
      | None => raise (IndexError "index is out of bounds")%string
      | Some i => set_true (<[i := true]> mask) channels'
      end
  end.

(** [a[mask, ...]]: the rows the mask marks, in their order. *)
Fixpoint select_rows {A} (a : list (list A)) (mask : list bool)
    : list (list A) :=
  match a, mask with
  | row :: a', b :: mask' =>
      if b then row :: select_rows a' mask' else select_rows a' mask'
  | _, _ => []
  end.

(** [import_open_ephys_channel_data], from the files read on: [fs] and
    [n_ch] come from [structure.oebin], [neural_data_flat] from
    [continuous.dat]. *)
Definition import_open_ephys_channel_data (fs : Qc) (n_ch : nat)
    (neural_data_flat : list Z) (channels : option (list Z))
    : result (Qc * list (list Z)) :=
  let* n_samples := int_div (length neural_data_flat) n_ch in
  let* neural_data_au :=
    reshape neural_data_flat n_ch (Z.to_nat n_samples) in
  match channels with
  | Some (c :: cs) =>
      let* mask := set_true (replicate n_ch false) (c :: cs) in
      ok (fs, select_rows neural_data_au mask)
  | _ => ok (fs, neural_data_au)
  end.

End OpenEphys.

(** ** Notions the specification uses *)

(** The "above zero" mask of a sync channel. *)
Definition above_zero (sync_ch : list float) : list bool :=
  map (fun v => Float.ltb (Fin 0%Qc) v) sync_ch.

(** Position [i] is a sign change of [mask]: the mask there differs from
    its value just before, the mask counting as false before position 0. *)
Definition sign_change (mask : list bool) (i : nat) : Prop :=
  exists b, mask !! i = Some b /\
    b <> match i with
         | O => false
         | S j => default false (mask !! j)
         end.

(** The positions where the mask of a sync channel changes, as the code
    computes them. *)
Definition crossings (sync_ch : list float) : list Z :=
  Np.where_ (Np.diff_bool false (above_zero sync_ch)).

(** The contiguous block of [count] rows of [m] that starts at row
    [start]. *)
Definition row_block (m : matrix) (start count : nat) : matrix :=
  {| ncols := ncols m; rows := take count (drop start (rows m)) |}.

(** Position [j] of [data] holds a sample whose absolute difference to
    [point] is minimal over all positions: no position has a strictly
    smaller one. *)
Definition closest (data : list float) (point : float) (j : nat) : Prop :=
  exists dj : float,
    data !! j = Some dj /\
    forall (k : nat) (dk : float),
      data !! k = Some dk ->
      Float.ltb (Float.abs (Float.sub dk point))
                (Float.abs (Float.sub dj point)) = false.

(** Position [j] of [data] holds a sample strictly less than [point]. *)
Definition smaller (data : list float) (point : float) (j : nat) : Prop :=
  exists dj : float, data !! j = Some dj /\ Float.ltb dj point = true.

(** The loop invariant on [min_difference]: it is [np.inf] or a number,
    never NaN. *)
Definition numeric (min_difference : option float) : Prop :=
  min_difference = None \/ exists m : Qc, min_difference = Some (Fin m).



(** ** Sample data *)


(** A stand-in detector: one event of each kind, at fixed frames. *)
Definition sample_detector (trace : list float) (fs : float)
    : Kinematics.toe_events :=
  ([Z.of_nat (length trace)], [1], [2]).

(** ** Notions for the further properties *)

(** Position [i] is a rising edge of the sync channel: the sample there is
    above zero and the one before, if any, is not. *)
Definition rising_edge (sync_ch : list float) (i : nat) : Prop :=
  above_zero sync_ch !! i = Some true /\
  match i with
  | O => True
  | S j => above_zero sync_ch !! j = Some false
  end.

(** The rising edges of a mask from position [s] on, [prev] being the
    value before it. *)
Fixpoint rises_from (s : Z) (prev : bool) (mask : list bool) : list Z :=
  match mask with
  | [] => []
  | b :: mask' =>
      if b && negb prev then s :: rises_from (s + 1) b mask'
      else rises_from (s + 1) b mask'
  end.


(** The onsets [parse_raw] splits at: shifted back by
    [samples_before_stim], the first one raised to 0 if negative, every
    second one dropped under [skip_one]. *)
Definition adjusted_onsets (stimulation_idxs : list Z)
    (samples_before_stim : Z) (skip_one : bool) : list Z :=
  match map (fun i => i - samples_before_stim) stimulation_idxs with
  | [] => []
  | first :: others =>
      let shifted := if first <? 0 then 0 :: others else first :: others in
      if skip_one then Np.every_other shifted else shifted
  end.

(** A run whose right toe marker was tracked along ["x"] only. *)
Definition sample_run_no_axis : Kinematics.KinematicDataRun :=
  {| Kinematics.markers_df :=
       [({| Kinematics.scorer_level := "scorer";
            Kinematics.bodyparts_level := "lmtp";
            Kinematics.coords_level := "z" |},
         [Float.of_Z 0; Float.of_Z 2; Float.of_Z 0]);
        ({| Kinematics.scorer_level := "scorer";
            Kinematics.bodyparts_level := "rmtp";
            Kinematics.coords_level := "x" |},
         [Float.of_Z 1; Float.of_Z 0; Float.of_Z 1])];
     Kinematics.run_fs := Float.of_Z 200;
     Kinematics.scorer := "scorer";
     Kinematics.left_mtp_lift := None;
     Kinematics.left_mtp_land := None;
     Kinematics.left_mtp_max := None;
     Kinematics.right_mtp_lift := None;
     Kinematics.right_mtp_land := None;
     Kinematics.right_mtp_max := None |}.

(** Row [r] of an array of [n_ch] rows is among the [channels] asked
    for. *)
Definition requested (n_ch : nat) (channels : list Z) (r : nat) : bool :=
  existsb (fun c => bool_decide (OpenEphys.position n_ch c = Some r))
    channels.

(** * Properties *)

(** ** Python slices as [take] and [drop] *)

Section SliceFacts.
Context {A : Type}.
Implicit Types l : list A.

Lemma slice_bound_nonneg (n : nat) (i : Z) :
  0 <= i -> Np.slice_bound n i = Nat.min (Z.to_nat i) n.
Proof.
  intros Hi. unfold Np.slice_bound.
  destruct (Z.ltb_spec i 0); lia.
Qed.

Lemma slice_bound_neg (n : nat) (i : Z) :
  i < 0 -> Np.slice_bound n i = (n - Z.to_nat (- i))%nat.
Proof.
  intros Hi. unfold Np.slice_bound.
  destruct (Z.ltb_spec i 0); lia.
Qed.

Lemma slice_from l (a : nat) :
  Np.slice l (Some (Z.of_nat a)) None = drop a l.
Proof.
  unfold Np.slice; simpl.
  rewrite slice_bound_nonneg by lia. rewrite Nat2Z.id.
  destruct (Nat.le_gt_cases a (length l)) as [Hle | Hgt].
  - rewrite Nat.min_l by lia. apply take_ge. rewrite length_drop. lia.
  - rewrite Nat.min_r by lia.
    rewrite (drop_ge l a) by lia. rewrite drop_ge by lia. by rewrite take_nil.
Qed.

Lemma slice_upto l (b : nat) :
  Np.slice l None (Some (Z.of_nat b)) = take b l.
Proof.
  unfold Np.slice; simpl.
  rewrite slice_bound_nonneg by lia. rewrite Nat2Z.id, Nat.sub_0_r, drop_0.
  destruct (Nat.le_gt_cases b (length l)) as [Hle | Hgt].
  - by rewrite Nat.min_l by lia.
  - rewrite Nat.min_r by lia.
    rewrite take_ge by lia. symmetry. apply take_ge. lia.
Qed.

Lemma slice_upto_neg l (b : nat) :
  (0 < b)%nat ->
  Np.slice l None (Some (- Z.of_nat b)) = take (length l - b) l.
Proof.
  intros Hb. unfold Np.slice; simpl.
  rewrite slice_bound_neg by lia.
  rewrite Z.opp_involutive, Nat2Z.id. by rewrite Nat.sub_0_r, drop_0.
Qed.

Lemma slice_between l (a b : nat) :
  Np.slice l (Some (Z.of_nat a)) (Some (Z.of_nat b)) = take (b - a) (drop a l).
Proof.
  unfold Np.slice; simpl.
  rewrite !slice_bound_nonneg by lia. rewrite !Nat2Z.id.
  destruct (Nat.le_gt_cases a (length l)) as [Ha | Ha].
  - rewrite (Nat.min_l a) by lia.
    destruct (Nat.le_gt_cases b (length l)) as [Hb | Hb].
    + by rewrite Nat.min_l by lia.
    + rewrite Nat.min_r by lia.
      rewrite !take_ge; [done | rewrite length_drop; lia ..].
  - rewrite (Nat.min_r a) by lia.
    rewrite (drop_ge l a) by lia. rewrite drop_ge by lia.
    by rewrite !take_nil.
Qed.

Lemma length_slice_between l (a b : nat) :
  (a <= b)%nat -> (b <= length l)%nat ->
  length (Np.slice l (Some (Z.of_nat a)) (Some (Z.of_nat b))) = (b - a)%nat.
Proof.
  intros Hab Hb. rewrite slice_between, length_take, length_drop. lia.
Qed.

Lemma every_other_lookup l (k : nat) :
  Np.every_other l !! k = l !! (2 * k)%nat.
Proof.
  revert k. induction l as [l IH] using (induction_ltof1 _ (@length A)).
  unfold ltof in IH. intros k.
  destruct l as [| x [| y l'']]; simpl.
  - by rewrite !lookup_nil.
  - destruct k as [| k]; [done |]. simpl.
    replace (k + S (k + 0))%nat with (S (2 * k)) by lia. done.
  - destruct k as [| k]; [done |]. simpl.
    replace (k + S (k + 0))%nat with (S (2 * k)) by lia. simpl.
    apply IH. simpl. lia.
Qed.

End SliceFacts.

(** ** Arithmetic of the sample model *)

Section FloatFacts.
Local Open Scope Qc_scope.


Lemma ltb_Fin (x y : Qc) : Float.ltb (Fin x) (Fin y) = true <-> x < y.
Proof. simpl. apply bool_decide_eq_true. Qed.

Lemma leb_Fin (x y : Qc) : Float.leb (Fin x) (Fin y) = true <-> x <= y.
Proof. simpl. apply bool_decide_eq_true. Qed.

Lemma leb_Fin_false (x y : Qc) : Float.leb (Fin x) (Fin y) = false <-> y < x.
Proof.
  simpl. rewrite bool_decide_eq_false. split.
  - apply Qcnot_le_lt.
  - apply Qclt_not_le.
Qed.

Lemma ltb_Fin_false (x y : Qc) : Float.ltb (Fin x) (Fin y) = false <-> y <= x.
Proof.
  simpl. rewrite bool_decide_eq_false. split.
  - apply Qcnot_lt_le.
  - apply Qcle_not_lt.
Qed.

Lemma add_assoc (a b c : float) :
  Float.add a (Float.add b c) = Float.add (Float.add a b) c.
Proof.
  destruct a, b, c; simpl; try done. f_equal. ring.
Qed.

Lemma add_zero_l (a : float) : Float.add (Fin 0) a = a.
Proof. destruct a; simpl; [done |]. f_equal. ring. Qed.

Lemma sub_zero_r (a : float) : Float.sub a (Fin 0) = a.
Proof. destruct a; simpl; [done |]. f_equal. ring. Qed.




End FloatFacts.

(** ** Binarisation by the mean *)




(** ** Edge detection on the sync channel *)

Section Edges.

Lemma diff_bool_lookup (p : bool) (a : list bool) (i : nat) :
  Np.diff_bool p a !! i
  = (fun b => xorb b match i with
                     | O => p
                     | S j => default false (a !! j)
                     end) <$> a !! i.
Proof.
  unfold Np.diff_bool. rewrite lookup_zip_with.
  destruct (a !! i) as [b |] eqn:Hb; simpl; [| done].
  destruct i as [| j]; simpl; [done |].
  assert (j < length a)%nat as Hj.
  { apply lookup_lt_Some in Hb. lia. }
  destruct (lookup_lt_is_Some_2 a j Hj) as [c Hc]. by rewrite Hc.
Qed.

Lemma elem_of_where_from (s : Z) (mask : list bool) (z : Z) :
  z ∈ Np.where_from s mask
  <-> exists i : nat, z = s + Z.of_nat i /\ mask !! i = Some true.
Proof.
  revert s. induction mask as [| b mask IH]; intros s; simpl.
  - split; [by intros ?%elem_of_nil | by intros (i & _ & ?)].
  - assert (z ∈ Np.where_from (s + 1) mask
            <-> exists i : nat, z = s + Z.of_nat (S i)
                                /\ mask !! i = Some true) as IH'.
    { rewrite IH. split; intros (i & -> & Hi); exists i; split; (lia || done). }
    destruct b.
    + rewrite elem_of_cons, IH'. split.
      * intros [-> | (i & -> & Hi)]; [exists 0%nat | exists (S i)];
          split; (lia || done).
      * intros ([| i] & -> & Hi); [left; lia | right; by exists i].
    + rewrite IH'. split.
      * intros (i & -> & Hi). by exists (S i).
      * intros ([| i] & -> & Hi); [done | by exists i].
Qed.

Lemma where_from_sorted (s : Z) (mask : list bool) :
  StronglySorted Z.lt (Np.where_from s mask).
Proof.
  revert s. induction mask as [| b mask IH]; intros s; simpl.
  - constructor.
  - destruct b; [| apply IH].
    constructor; [apply IH |].
    apply Forall_forall. intros z (i & -> & _)%elem_of_where_from. lia.
Qed.

Lemma every_other_subseteq {A} (l : list A) (x : A) :
  x ∈ Np.every_other l -> x ∈ l.
Proof.
  intros (k & Hk)%list_elem_of_lookup_1.
  rewrite every_other_lookup in Hk. by eapply list_elem_of_lookup_2.
Qed.

Lemma every_other_sorted {A} (R : A -> A -> Prop) (l : list A) :
  StronglySorted R l -> StronglySorted R (Np.every_other l).
Proof.
  induction l as [l IH] using (induction_ltof1 _ (@length A)).
  unfold ltof in IH. intros Hl.
  destruct l as [| x [| y l'']]; simpl; [constructor | done |].
  apply StronglySorted_cons in Hl as [Hx Hl].
  apply StronglySorted_cons in Hl as [Hy Hl].
  constructor.
  - apply IH; [simpl; lia | done].
  - apply Forall_forall. intros z Hz%every_other_subseteq.
    rewrite Forall_forall in Hx. apply Hx. by right.
Qed.

Lemma sign_change_diff (mask : list bool) (i : nat) :
  Np.diff_bool false mask !! i = Some true <-> sign_change mask i.
Proof.
  rewrite diff_bool_lookup. unfold sign_change.
  destruct (mask !! i) as [b |]; simpl.
  - split.
    + intros [= Hx]. exists b. split; [done |].
      intros ->. by rewrite xorb_nilpotent in Hx.
    + intros (b' & [= <-] & Hne). f_equal.
      destruct b, i as [| j]; simpl in *;
        try destruct (default false (mask !! j)); done.
  - split; [done | by intros (b & ? & _)].
Qed.

End Edges.

(** C5 (amended).  The result of [get_stim_timestamps] without an expected
    count is made of the even-positioned (0th, 2nd, 4th, ...) sign changes
    of the above-zero mask, in increasing order.  With an expected count
    [N >= 1] the result is its first [N] indices, and it is returned
    unchanged when it has at most [N] of them. *)
Theorem get_stim_timestamps_spec (sync_ch : list float) :
  (forall z : Z,
     z ∈ crossings sync_ch
     <-> exists i : nat, z = Z.of_nat i
                         /\ sign_change (above_zero sync_ch) i) /\
  StronglySorted Z.lt (crossings sync_ch) /\
  (forall k : nat,
     get_stim_timestamps sync_ch None !! k
     = crossings sync_ch !! (2 * k)%nat) /\
  StronglySorted Z.lt (get_stim_timestamps sync_ch None) /\
  (forall N : Z,
     1 <= N ->
     get_stim_timestamps sync_ch (Some N)
     = take (Z.to_nat N) (get_stim_timestamps sync_ch None)) /\
  (forall N : Z,
     1 <= N ->
     Z.of_nat (length (get_stim_timestamps sync_ch None)) <= N ->
     get_stim_timestamps sync_ch (Some N)
     = get_stim_timestamps sync_ch None).
Proof.
  assert (forall N : Z, 1 <= N ->
            get_stim_timestamps sync_ch (Some N)
            = take (Z.to_nat N) (get_stim_timestamps sync_ch None)) as Htake.
  { intros N HN. unfold get_stim_timestamps, truthy.
    destruct (Z.eqb_spec N 0) as [-> | _]; [lia |]. simpl.
    rewrite <- (Z2Nat.id N) at 1 by lia. apply slice_upto. }
  repeat split.
  - intros (i & -> & Hi)%elem_of_where_from. exists i.
    split; [lia |]. by apply sign_change_diff.
  - intros (i & -> & Hi). apply elem_of_where_from. exists i.
    split; [lia |]. by apply sign_change_diff.
  - apply where_from_sorted.
  - intros k. apply every_other_lookup.
  - apply every_other_sorted, where_from_sorted.
  - exact Htake.
  - intros N HN Hlen. rewrite Htake by done. apply take_ge. lia.
Qed.

Lemma get_stim_timestamps_witness :
  get_stim_timestamps
    [Float.of_Z 0; Float.of_Z 1; Float.of_Z 0; Float.of_Z 3; Float.of_Z 0;
     Float.of_Z 2] (Some 2)
  = [1; 3]
  /\ get_stim_timestamps
       [Float.of_Z 0; Float.of_Z 1; Float.of_Z 0; Float.of_Z 3; Float.of_Z 0;
        Float.of_Z 2] (Some 5)
     = [1; 3; 5].
Proof.
  destruct (get_stim_timestamps_spec
              [Float.of_Z 0; Float.of_Z 1; Float.of_Z 0; Float.of_Z 3;
               Float.of_Z 0; Float.of_Z 2])
    as (_ & _ & _ & _ & Hfirst & Hshort).
  split.
  - rewrite (Hfirst 2); [reflexivity | lia].
  - rewrite (Hshort 5); [reflexivity | lia | simpl; lia].
Defined.

(** C5, as the specification words it, fails for an expected count of 0:
    the guard [if expected_pulses:] takes 0 for "not given" and nothing is
    cut. *)
Lemma get_stim_timestamps_zero_count :
  get_stim_timestamps [Float.of_Z 1; Float.of_Z 0; Float.of_Z 1] (Some 0)
  = [0; 2]
  /\ take (Z.to_nat 0)
       (get_stim_timestamps [Float.of_Z 1; Float.of_Z 0; Float.of_Z 1] None)
     = []
  /\ get_stim_timestamps [Float.of_Z 1; Float.of_Z 0; Float.of_Z 1] (Some 0)
     <> take (Z.to_nat 0)
          (get_stim_timestamps [Float.of_Z 1; Float.of_Z 0; Float.of_Z 1]
             None).
Proof. split; [| split]; [reflexivity | reflexivity | discriminate]. Qed.

(** ** Running mean *)

Section RunningMean.

Lemma add_zero_r (a : float) : Float.add a (Fin 0%Qc) = a.
Proof. destruct a; simpl; [done |]. f_equal. ring. Qed.

Lemma length_cumsum_from (acc : float) (a : list float) :
  length (Arr.cumsum_from acc a) = length a.
Proof.
  revert acc. induction a as [| x a IH]; intros acc; simpl; [done |].
  by rewrite IH.
Qed.

(** Entry [i] of the running sums is the start value plus the sum of the
    first [i + 1] elements. *)
Lemma cumsum_from_lookup (acc : float) (a : list float) (i : nat) :
  (i < length a)%nat ->
  Arr.cumsum_from acc a !! i
  = Some (Float.add acc (Float.sum (take (S i) a))).
Proof.
  revert acc i. induction a as [| x a IH]; intros acc i Hi; simpl in *.
  - lia.
  - destruct i as [| i]; simpl.
    + by rewrite add_zero_r.
    + rewrite IH by lia. f_equal.
      change (Float.sum (x :: take (S i) a))
        with (Float.add x (Float.sum (take (S i) a))).
      by rewrite add_assoc.
Qed.

Lemma cumsum_insert_zero (x : list float) :
  Arr.cumsum (Fin 0%Qc :: x) = Fin 0%Qc :: Arr.cumsum_from (Fin 0%Qc) x.
Proof. done. Qed.

Lemma running_mean_in_range (x : list float) (n : nat) :
  (1 <= n <= length x)%nat ->
  running_mean x (Z.of_nat n)
  = ok (map (fun v => Float.div v (Float.of_nat n))
          (zip_with Float.sub
             (drop n (Fin 0%Qc :: Arr.cumsum_from (Fin 0%Qc) x))
             (take (S (length x) - n)
                (Fin 0%Qc :: Arr.cumsum_from (Fin 0%Qc) x)))).
Proof.
  intros Hn. unfold running_mean. rewrite cumsum_insert_zero.
  set (cs := Fin 0%Qc :: Arr.cumsum_from (Fin 0%Qc) x).
  assert (length cs = S (length x)) as Hcs.
  { unfold cs. simpl. by rewrite length_cumsum_from. }
  rewrite slice_from, slice_upto_neg by lia. rewrite Hcs.
  unfold Arr.subtract.
  rewrite length_drop, length_take, Hcs.
  destruct (decide _) as [_ | Hne]; [done | lia].
Qed.

End RunningMean.

(** C2. For a window [1 <= n <= len(x)], [running_mean] returns a sequence
    of length [len(x) - n + 1]; for [n = len(x)] it is the single value
    [np.mean(x)]. *)
Theorem running_mean_spec (x : list float) (n : Z) :
  1 <= n <= Z.of_nat (length x) ->
  exists r : list float,
    running_mean x n = ok r /\
    Z.of_nat (length r) = Z.of_nat (length x) - n + 1 /\
    (n = Z.of_nat (length x) -> r = [Np.mean x]).
Proof.
  intros Hn.
  assert (exists m : nat, n = Z.of_nat m /\ (1 <= m <= length x)%nat)
    as (m & -> & Hm).
  { exists (Z.to_nat n). lia. }
  clear Hn. rename m into n, Hm into Hn.
  rewrite running_mean_in_range by done.
  eexists. split; [done |].
  set (cs := Fin 0%Qc :: Arr.cumsum_from (Fin 0%Qc) x).
  assert (length cs = S (length x)) as Hcs.
  { unfold cs. simpl. by rewrite length_cumsum_from. }
  split.
  - rewrite length_map, length_zip_with, length_drop, length_take, Hcs. lia.
  - intros Heq. apply Nat2Z.inj in Heq. subst n.
    apply list_eq. intros [| i].
    + rewrite list_lookup_fmap, lookup_zip_with, lookup_drop.
      rewrite lookup_take_lt by lia.
      rewrite Nat.add_0_r. unfold cs.
      destruct x as [| x0 x']; [simpl in Hn; lia |].
      change ((Fin 0%Qc :: Arr.cumsum_from (Fin 0%Qc) (x0 :: x'))
                !! length (x0 :: x'))
        with (Arr.cumsum_from (Fin 0%Qc) (x0 :: x') !! length x').
      rewrite cumsum_from_lookup by (simpl; lia).
      change (S (length x')) with (length (x0 :: x')).
      rewrite take_ge by lia. simpl lookup. cbn [mbind option_bind fmap option_fmap option_map].
      rewrite add_zero_l, sub_zero_r. done.
    + rewrite list_lookup_fmap, lookup_zip_with, lookup_drop.
      rewrite (lookup_ge_None_2 cs) by (rewrite Hcs; lia). done.
Qed.

Lemma running_mean_witness :
  exists r : list float,
    running_mean [Float.of_Z 1; Float.of_Z 2; Float.of_Z 6] 3 = ok r /\
    Z.of_nat (length r) = 1 /\
    r = [Np.mean [Float.of_Z 1; Float.of_Z 2; Float.of_Z 6]].
Proof.
  destruct (running_mean_spec [Float.of_Z 1; Float.of_Z 2; Float.of_Z 6] 3)
    as (r & Hr & Hlen & Hmean).
  - simpl. lia.
  - exists r. split; [exact Hr |]. split; [exact Hlen |].
    apply Hmean. reflexivity.
Defined.

(** ** Segmenting the raw signal at the stimulation onsets *)

Section ParseRaw.
Context {A : Type}.
Implicit Types (raw chunk : list A) (chunks : list (list A)).

Lemma length_split_from raw (st : Z) (ends : list Z) :
  length (Arr.split_from raw st ends) = length ends.
Proof.
  revert st. induction ends as [| e ends IH]; intros st; simpl; [done |].
  by rewrite IH.
Qed.

(** [np.split] yields one piece more than it is given indices. *)
Lemma length_split raw (indices : list Z) :
  length (Arr.split raw indices) = S (length indices).
Proof.
  unfold Arr.split. rewrite length_split_from, length_app. simpl. lia.
Qed.

(** Between increasing division points inside the array no piece is
    empty. *)
Lemma split_from_nonempty raw (st : Z) (ends : list Z) :
  0 <= st ->
  StronglySorted Z.lt (st :: ends) ->
  Forall (fun e => e <= Z.of_nat (length raw)) ends ->
  Forall (fun chunk => (1 <= length chunk)%nat) (Arr.split_from raw st ends).
Proof.
  revert st. induction ends as [| e ends IH]; intros st Hst Hsorted Hle;
    simpl; [constructor |].
  apply StronglySorted_cons in Hsorted as [Hlt Hsorted].
  apply Forall_cons in Hlt as [Hlt _].
  apply Forall_cons in Hle as [He Hle].
  constructor.
  - rewrite <- (Z2Nat.id st), <- (Z2Nat.id e) by lia.
    rewrite length_slice_between by lia. lia.
  - apply IH; [lia | done | done].
Qed.

Lemma filter_all (f : list A -> bool) chunks :
  Forall (fun chunk => f chunk = true) chunks -> List.filter f chunks = chunks.
Proof.
  induction 1 as [| chunk chunks Hf _ IH]; simpl; [done |].
  by rewrite Hf, IH.
Qed.

Lemma min_len_le (lens : list nat) (n : nat) :
  n ∈ lens -> (Arr.min_len lens <= n)%nat.
Proof.
  destruct lens as [| n0 lens]; [by intros ?%elem_of_nil |].
  simpl. revert n0. induction lens as [| n1 lens IH]; intros n0 Hn; simpl.
  - apply list_elem_of_singleton in Hn. lia.
  - apply elem_of_cons in Hn as [-> | Hn].
    + specialize (IH n0 ltac:(by left)). lia.
    + apply elem_of_cons in Hn as [-> | Hn]; [lia |].
      specialize (IH n0 ltac:(by right)). lia.
Qed.

Lemma min_len_lower (lens : list nat) (k : nat) :
  lens <> [] -> Forall (fun n => (k <= n)%nat) lens ->
  (k <= Arr.min_len lens)%nat.
Proof.
  destruct lens as [| n0 lens]; [done |]. intros _ Hk.
  apply Forall_cons in Hk as [Hn0 Hk]. simpl.
  induction Hk as [| n1 lens Hn1 _ IH]; simpl; lia.
Qed.

(** After trimming, every row has the length of the shortest one. *)
Lemma trim_equal_len_rows chunks :
  Forall (fun r => length r = Arr.min_len (map length chunks))
    (trim_equal_len chunks).
Proof.
  unfold trim_equal_len. apply Forall_forall.
  intros r (r0 & -> & Hr0)%list_elem_of_fmap_1.
  rewrite slice_upto, length_take.
  pose proof (min_len_le (map length chunks) (length r0)) as Hle.
  rewrite Nat.min_l; [done |]. apply Hle.
  by apply list_elem_of_fmap_2.
Qed.

Lemma length_trim_equal_len chunks :
  length (trim_equal_len chunks) = length chunks.
Proof. unfold trim_equal_len. apply length_map. Qed.

Lemma same_length_uniform (w : nat) chunks :
  Forall (fun r => length r = w) chunks -> Arr.same_length chunks = true.
Proof.
  destruct 1 as [| r chunks Hr Hrest]; simpl; [done |].
  apply forallb_forall. intros r' Hr'%list_elem_of_In.
  rewrite Forall_forall in Hrest. rewrite Hr, (Hrest _ Hr').
  apply Nat.eqb_refl.
Qed.

Lemma vstack_trimmed chunks :
  chunks <> [] ->
  Arr.vstack (trim_equal_len chunks) = ok (trim_equal_len chunks).
Proof.
  intros Hne. unfold Arr.vstack.
  rewrite (same_length_uniform _ _ (trim_equal_len_rows chunks)).
  destruct chunks; [done |]. done.
Qed.

End ParseRaw.

(** C1 (amended).  For a non-empty, strictly increasing sequence of onset
    indices inside the signal, [parse_raw] with no pre-onset samples, no
    skipping and [min_len_chunk = 1] returns a matrix with exactly
    [len(onsets)] rows, all of one length of at least one sample: only the
    chunk before the first onset is dropped. *)
Theorem parse_raw_row_count {A} (raw : list A) (onsets : list Z) :
  onsets <> [] ->
  StronglySorted Z.lt onsets ->
  Forall (fun i => 0 <= i < Z.of_nat (length raw)) onsets ->
  exists m : list (list A),
    parse_raw raw onsets 0 false 1 = ok m /\
    length m = length onsets /\
    exists w : nat, (1 <= w)%nat /\ Forall (fun r => length r = w) m.
Proof.
  intros Hne Hsorted Hrange. unfold parse_raw.
  assert (map (fun i => i - 0) onsets = onsets) as ->.
  { rewrite <- (map_id onsets) at 2. apply map_ext. intros i. lia. }
  destruct onsets as [| first others]; [done |].
  apply Forall_cons in Hrange as [Hfirst Hothers].
  destruct (Z.ltb_spec first 0) as [? | _]; [lia |].
  unfold Arr.split. simpl Arr.split_from.
  rewrite (slice_from _ 1). simpl drop. rewrite drop_0.
  set (chunks := Arr.split_from raw first (others ++ [Z.of_nat (length raw)])).
  assert (Forall (fun chunk => (1 <= length chunk)%nat) chunks) as Hchunks.
  { apply split_from_nonempty; [lia | |].
    - rewrite app_comm_cons. apply StronglySorted_app. split_and!.
      + intros x1 x2 Hx1 ->%list_elem_of_singleton.
        apply elem_of_cons in Hx1 as [-> | Hx1]; [lia |].
        rewrite Forall_forall in Hothers. apply Hothers in Hx1. lia.
      + done.
      + repeat constructor.
    - apply Forall_app. split; [| by repeat constructor].
      eapply Forall_impl; [exact Hothers |]. simpl. lia. }
  assert (length chunks = S (length others)) as Hlen.
  { unfold chunks. rewrite length_split_from, length_app. simpl. lia. }
  rewrite filter_all.
  2: { eapply Forall_impl; [exact Hchunks |]. simpl. intros c Hc.
       apply Z.leb_le. lia. }
  assert (chunks <> []) as Hne'.
  { intros Heq. rewrite Heq in Hlen. done. }
  rewrite vstack_trimmed by done.
  eexists. split; [done |]. split.
  - rewrite length_trim_equal_len, Hlen. done.
  - exists (Arr.min_len (map length chunks)). split.
    + apply min_len_lower.
      * destruct chunks; done.
      * apply Forall_fmap. exact Hchunks.
    + apply trim_equal_len_rows.
Qed.

Lemma parse_raw_row_count_witness :
  exists m : list (list Z),
    parse_raw [10; 20; 30; 40] [1; 2] 0 false 1 = ok m /\
    length m = 2%nat /\
    exists w : nat, (1 <= w)%nat /\ Forall (fun r => length r = w) m.
Proof.
  apply (parse_raw_row_count [10; 20; 30; 40] [1; 2]).
  - discriminate.
  - repeat constructor; lia.
  - repeat constructor; simpl; lia.
Defined.

(** C1, as the specification words it, fails: two onsets give two rows,
    not [len(onsets) - 1 = 1]. *)
Lemma parse_raw_row_count_counterexample :
  parse_raw [10; 20; 30; 40] [1; 2] 0 false 1 = ok [[20]; [30]]
  /\ length [[20]; [30]] <> (length [1; 2] - 1)%nat.
Proof. split; [reflexivity | simpl; lia]. Qed.

(** ** Averaging the chunks of each amplitude *)

Section Averaging.

Lemma row_slice_all (m : matrix) :
  row_slice m 0 (Z.of_nat (length (rows m))) = m.
Proof.
  unfold row_slice. destruct m as [c rs]; simpl. f_equal.
  rewrite (slice_between rs 0). rewrite drop_0, Nat.sub_0_r.
  by apply take_ge.
Qed.

Lemma row_slice_block (m : matrix) (i p : nat) :
  row_slice m (Z.of_nat i * Z.of_nat p) ((Z.of_nat i + 1) * Z.of_nat p)
  = row_block m (i * p) p.
Proof.
  unfold row_slice, row_block. f_equal.
  replace (Z.of_nat i * Z.of_nat p) with (Z.of_nat (i * p)) by lia.
  replace ((Z.of_nat i + 1) * Z.of_nat p) with (Z.of_nat (i * p + p)) by lia.
  rewrite slice_between. f_equal. lia.
Qed.

Lemma int_div_floor (a b : nat) :
  (0 < b)%nat -> int_div a b = ok (Z.of_nat (a / b)).
Proof.
  intros Hb. unfold int_div.
  destruct (decide (b = 0%nat)) as [-> | _]; [lia |].
  f_equal. rewrite Z.quot_div_nonneg by lia. by rewrite Nat2Z.inj_div.
Qed.

(** Entry [j] of the column-wise mean is the sum of the entries [j] of
    all rows over the number of rows. *)
Lemma mean_axis0_lookup (m : matrix) (j : nat) :
  (j < ncols m)%nat ->
  mean_axis0 m !! j
  = Some (Float.div (Float.sum (column m j))
            (Float.of_nat (length (rows m)))).
Proof.
  intros Hj. unfold mean_axis0.
  rewrite list_lookup_fmap, lookup_seq_lt by done. simpl.
  unfold Np.mean, column. by rewrite length_map.
Qed.

End Averaging.

(** C6. With exactly one tested amplitude [get_average_amplitudes]
    returns the single row [np.mean(parsed_raw, axis=0)], whatever
    [pulses_number] is; entry [j] of such a mean is the sum of the entries
    [j] of the rows over their number.  With more than one amplitude and [pulses_number]
    not given, the number of pulses is [floor(rows / amplitudes)] and the
    result lists, for each amplitude [i] in order, the column-wise mean of
    the rows [i * p, ..., (i + 1) * p - 1]. *)
Theorem get_average_amplitudes_spec {A} (parsed_raw : matrix)
    (tested_amplitudes : list A) (pulses_number : option Z) :
  (length tested_amplitudes = 1%nat ->
   get_average_amplitudes parsed_raw tested_amplitudes pulses_number
   = ok [mean_axis0 parsed_raw]) /\
  ((1 < length tested_amplitudes)%nat ->
   truthy pulses_number = false ->
   get_average_amplitudes parsed_raw tested_amplitudes pulses_number
   = ok (map (fun i : nat =>
                mean_axis0
                  (row_block parsed_raw
                     (i * (length (rows parsed_raw)
                           / length tested_amplitudes))
                     (length (rows parsed_raw) / length tested_amplitudes)))
           (seq 0 (length tested_amplitudes)))) /\
  (forall (m : matrix) (j : nat),
     (j < ncols m)%nat ->
     mean_axis0 m !! j
     = Some (Float.div (Float.sum (column m j))
               (Float.of_nat (length (rows m))))).
Proof.
  split; [| split; [| apply mean_axis0_lookup]].
  - intros Hone. unfold get_average_amplitudes.
    destruct (decide _) as [_ | Hne]; [| done].
    unfold average_block. by rewrite row_slice_all.
  - intros Hmany Hnot. unfold get_average_amplitudes.
    destruct (decide _) as [Heq | _]; [lia |].
    rewrite Hnot. rewrite int_div_floor by lia. simpl. f_equal.
    apply map_ext. intros i. unfold average_block.
    by rewrite row_slice_block.
Qed.

Lemma get_average_amplitudes_witness :
  get_average_amplitudes
    {| ncols := 1;
       rows := [[Float.of_Z 1]; [Float.of_Z 3]; [Float.of_Z 5]] |}
    [tt] (Some 7)
  = ok [mean_axis0
          {| ncols := 1;
             rows := [[Float.of_Z 1]; [Float.of_Z 3]; [Float.of_Z 5]] |}]
  /\ get_average_amplitudes
       {| ncols := 1;
          rows := [[Float.of_Z 1]; [Float.of_Z 3]; [Float.of_Z 5]] |}
       [tt; tt] None
     = ok [mean_axis0 {| ncols := 1; rows := [[Float.of_Z 1]] |};
           mean_axis0 {| ncols := 1; rows := [[Float.of_Z 3]] |}].
Proof.
  split.
  - apply (proj1 (get_average_amplitudes_spec
                    {| ncols := 1;
                       rows := [[Float.of_Z 1]; [Float.of_Z 3];
                                [Float.of_Z 5]] |} [tt] (Some 7))).
    reflexivity.
  - rewrite (proj1 (proj2 (get_average_amplitudes_spec
                    {| ncols := 1;
                       rows := [[Float.of_Z 1]; [Float.of_Z 3];
                                [Float.of_Z 5]] |} [tt; tt] None)));
      [reflexivity | simpl; lia | reflexivity].
Defined.

(** ** Closest index *)

Section ClosestIndex.
Local Open Scope Qc_scope.

Lemma nan_free_existsb (data : list float) :
  existsb Float.is_nan data = false <-> NaN ∉ data.
Proof.
  induction data as [| d data IH]; simpl.
  - split; [intros _ ?%elem_of_nil; done | done].
  - rewrite not_elem_of_cons, orb_false_iff, IH.
    destruct d as [| q]; simpl.
    + split; [by intros [? _] | by intros [? _]].
    + split; [by intros [_ ?] | by intros [_ ?]].
Qed.

Lemma nan_free_Fin (data : list float) :
  NaN ∉ data -> exists qs : list Qc, data = map Fin qs.
Proof.
  induction data as [| d data IH]; intros Hfree.
  - by exists [].
  - apply not_elem_of_cons in Hfree as [Hd Hfree].
    destruct (IH Hfree) as (qs & ->).
    destruct d as [| q]; [done |]. by exists (q :: qs).
Qed.

(** The scan of [argmin] over numbers: either nothing beats the current
    minimum [m], or the result is the first position holding the least
    value, which is below [m]. *)
Lemma argmin_loop_spec (vs : list Qc) (m : Qc) (min_ind i : nat) :
  (argmin_loop (Fin m) min_ind i (map Fin vs) = min_ind
   /\ Forall (fun v => m <= v) vs)
  \/ (exists (k : nat) (v : Qc),
        argmin_loop (Fin m) min_ind i (map Fin vs) = (i + k)%nat
        /\ vs !! k = Some v /\ v < m
        /\ Forall (fun x => v <= x) vs
        /\ forall (k' : nat) (x : Qc),
             (k' < k)%nat -> vs !! k' = Some x -> v < x).
Proof.
  revert m min_ind i. induction vs as [| x vs IH]; intros m min_ind i.
  - left. by split.
  - cbn [map argmin_loop Float.is_nan].
    destruct (Float.leb (Fin m) (Fin x)) eqn:Hle; cbn [negb].
    + apply leb_Fin in Hle.
      destruct (IH m min_ind (S i)) as [[Hr Hall] | (k & v & Hr & Hk & Hv & Hall & Hfirst)].
      * left. split; [done |]. by constructor.
      * right. exists (S k), v. split_and!.
        -- rewrite Hr. lia.
        -- done.
        -- done.
        -- constructor; [| done].
           apply Qclt_le_weak. by eapply Qclt_le_trans.
        -- intros [| k'] x' Hlt Hx'; simpl in Hx'.
           ++ injection Hx' as <-. by eapply Qclt_le_trans.
           ++ eapply Hfirst; [| done]. lia.
    + apply leb_Fin_false in Hle.
      destruct (IH x i (S i)) as [[Hr Hall] | (k & v & Hr & Hk & Hv & Hall & Hfirst)].
      * right. exists 0%nat, x. split_and!.
        -- rewrite Hr. lia.
        -- done.
        -- done.
        -- constructor; [apply Qcle_refl | done].
        -- intros k' x' Hlt. lia.
      * right. exists (S k), v. split_and!.
        -- rewrite Hr. lia.
        -- done.
        -- by eapply Qclt_trans.
        -- constructor; [by apply Qclt_le_weak | done].
        -- intros [| k'] x' Hlt Hx'; simpl in Hx'.
           ++ by injection Hx' as <-.
           ++ eapply Hfirst; [| done]. lia.
Qed.

(** [argmin] of a non-empty array of numbers: the first position of the
    least value. *)
Lemma argmin_spec (vs : list Qc) :
  vs <> [] ->
  exists (r : nat) (v : Qc),
    argmin (map Fin vs) = ok r
    /\ vs !! r = Some v
    /\ Forall (fun x => v <= x) vs
    /\ forall (k : nat) (x : Qc), (k < r)%nat -> vs !! k = Some x -> v < x.
Proof.
  destruct vs as [| m vs]; [done |]. intros _.
  cbn [map argmin Float.is_nan].
  destruct (argmin_loop_spec vs m 0 1)
    as [[Hr Hall] | (k & v & Hr & Hk & Hv & Hall & Hfirst)].
  - exists 0%nat, m. rewrite Hr. split_and!; try done.
    + constructor; [apply Qcle_refl | done].
    + intros k x Hlt. lia.
  - exists (S k), v. rewrite Hr. split_and!; try done.
    + constructor; [by apply Qclt_le_weak | done].
    + intros [| k'] x Hlt Hx; simpl in Hx.
      * by injection Hx as <-.
      * eapply Hfirst; [| done]. lia.
Qed.

Lemma distances_Fin (qs : list Qc) (p : Qc) :
  map (fun d => Float.abs (Float.sub d (Fin p))) (map Fin qs)
  = map Fin (map (fun q => Float.Qcabs (q - p)) qs).
Proof. rewrite !map_map. by apply map_ext. Qed.

Lemma distances_NaN (qs : list Qc) :
  map (fun d => Float.abs (Float.sub d NaN)) (map Fin qs)
  = map (fun _ => NaN) qs.
Proof. rewrite map_map. by apply map_ext. Qed.

(** On NaN-free data and a numeric point the search succeeds, at the
    first position of least distance. *)
Lemma find_closest_index_Fin (qs : list Qc) (p : Qc) :
  qs <> [] ->
  exists (i : nat) (q : Qc),
    find_closest_index (map Fin qs) (Fin p) = ok i
    /\ qs !! i = Some q
    /\ (forall (j : nat) (qj : Qc),
          qs !! j = Some qj ->
          Float.Qcabs (q - p) <= Float.Qcabs (qj - p))
    /\ (forall (j : nat) (qj : Qc),
          (j < i)%nat -> qs !! j = Some qj ->
          Float.Qcabs (q - p) < Float.Qcabs (qj - p)).
Proof.
  intros Hne. unfold find_closest_index.
  assert (existsb Float.is_nan (map Fin qs) = false) as ->.
  { apply nan_free_existsb. by intros (q & ? & _)%list_elem_of_fmap_1. }
  rewrite distances_Fin.
  destruct (argmin_spec (map (fun q => Float.Qcabs (q - p)) qs))
    as (r & v & Hr & Hv & Hall & Hfirst).
  { by destruct qs. }
  rewrite list_lookup_fmap in Hv.
  destruct (qs !! r) as [q |] eqn:Hq; [| done].
  injection Hv as <-.
  exists r, q. split_and!; try done.
  - intros j qj Hj. rewrite Forall_forall in Hall. apply Hall.
    apply list_elem_of_fmap. exists qj.
    split; [done | by eapply list_elem_of_lookup_2].
  - intros j qj Hlt Hj. apply (Hfirst j); [done |].
    by rewrite list_lookup_fmap, Hj.
Qed.

Lemma find_closest_index_NaN_point (qs : list Qc) :
  qs <> [] -> find_closest_index (map Fin qs) NaN = ok 0%nat.
Proof.
  intros Hne. unfold find_closest_index.
  assert (existsb Float.is_nan (map Fin qs) = false) as ->.
  { apply nan_free_existsb. by intros (q & ? & _)%list_elem_of_fmap_1. }
  rewrite distances_NaN. by destruct qs.
Qed.

End ClosestIndex.

Section ClosestIndexClaims.
Local Open Scope Qc_scope.

Lemma nan_existsb (data : list float) :
  existsb Float.is_nan data = true <-> NaN ∈ data.
Proof.
  induction data as [| d data IH]; simpl.
  - split; [done | by intros ?%elem_of_nil].
  - rewrite elem_of_cons, orb_true_iff, IH.
    destruct d as [| q]; simpl.
    + split; [by left | by left].
    + split; (intros [? | ?]; [done | by right]).
Qed.

Lemma find_closest_index_raises (data : list float) (datapoint : float) :
  NaN ∈ data -> find_closest_index data datapoint = raise (ValueError nan_msg).
Proof.
  intros Hnan%nan_existsb. unfold find_closest_index. by rewrite Hnan.
Qed.

Lemma closest_Fin (qs : list Qc) (p : Qc) (j : nat) :
  closest (map Fin qs) (Fin p) j
  <-> exists qj : Qc,
        qs !! j = Some qj /\
        forall (k : nat) (qk : Qc),
          qs !! k = Some qk -> Float.Qcabs (qj - p) <= Float.Qcabs (qk - p).
Proof.
  unfold closest. split.
  - intros (dj & Hj & Hmin). rewrite list_lookup_fmap in Hj.
    destruct (qs !! j) as [qj |] eqn:Hqj; [| done]. injection Hj as <-.
    exists qj. split; [done |]. intros k qk Hk.
    apply ltb_Fin_false. apply (Hmin k (Fin qk)).
    by rewrite list_lookup_fmap, Hk.
  - intros (qj & Hj & Hmin). exists (Fin qj).
    split; [by rewrite list_lookup_fmap, Hj |].
    intros k dk Hk. rewrite list_lookup_fmap in Hk.
    destruct (qs !! k) as [qk |] eqn:Hqk; [| done]. injection Hk as <-.
    apply ltb_Fin_false. by eapply Hmin.
Qed.

(** Against a NaN point every difference is NaN and none is smaller than
    another. *)
Lemma closest_NaN (qs : list Qc) (j : nat) :
  (j < length qs)%nat -> closest (map Fin qs) NaN j.
Proof.
  intros Hj. destruct (lookup_lt_is_Some_2 qs j Hj) as [qj Hqj].
  exists (Fin qj). split; [by rewrite list_lookup_fmap, Hqj |].
  intros k dk Hk. rewrite list_lookup_fmap in Hk.
  destruct (qs !! k) as [qk |]; [| done]. by injection Hk as <-.
Qed.

End ClosestIndexClaims.

(** C3 (amended).  On non-empty data [find_closest_index] raises a
    [ValueError] if and only if the data contain a NaN; on non-empty
    NaN-free data it returns an index whose sample has minimal absolute
    difference to the point; on [1, 5, 10] and 4 that is index 1. *)
Theorem find_closest_index_spec (data : list float) (datapoint : float) :
  data <> [] ->
  (is_ValueError (find_closest_index data datapoint) <-> NaN ∈ data) /\
  (NaN ∉ data ->
   exists i : nat,
     find_closest_index data datapoint = ok i /\ closest data datapoint i) /\
  find_closest_index [Float.of_Z 1; Float.of_Z 5; Float.of_Z 10]
    (Float.of_Z 4) = ok 1%nat.
Proof.
  intros Hne. split_and!.
  - split.
    + intros [msg Hmsg].
      destruct (existsb Float.is_nan data) eqn:Hex; [by apply nan_existsb |].
      apply nan_free_existsb in Hex.
      destruct (nan_free_Fin data Hex) as (qs & ->).
      assert (qs <> []) as Hqs by (by destruct qs).
      destruct datapoint as [| p].
      * by rewrite find_closest_index_NaN_point in Hmsg.
      * destruct (find_closest_index_Fin qs p Hqs) as (i & q & Hi & _).
        by rewrite Hi in Hmsg.
    + intros Hnan. exists nan_msg. by apply find_closest_index_raises.
  - intros Hfree.
    destruct (nan_free_Fin data Hfree) as (qs & ->).
    assert (qs <> []) as Hqs by (by destruct qs).
    destruct datapoint as [| p].
    + exists 0%nat. rewrite find_closest_index_NaN_point by done.
      split; [done |]. apply closest_NaN. destruct qs; [done | simpl; lia].
    + destruct (find_closest_index_Fin qs p Hqs)
        as (i & q & Hi & Hq & Hmin & _).
      exists i. split; [done |]. apply closest_Fin. by exists q.
  - reflexivity.
Qed.

Lemma find_closest_index_witness :
  exists i : nat,
    find_closest_index [Float.of_Z 3; Float.of_Z 8] (Float.of_Z 7) = ok i
    /\ closest [Float.of_Z 3; Float.of_Z 8] (Float.of_Z 7) i.
Proof.
  apply (find_closest_index_spec [Float.of_Z 3; Float.of_Z 8] (Float.of_Z 7)).
  - discriminate.
  - intros [? | [? | ?%elem_of_nil]%elem_of_cons]%elem_of_cons; done.
Defined.

(** C3, as the specification words it, fails on empty data: they hold no
    NaN, yet [argmin] raises a [ValueError]. *)
Lemma find_closest_index_empty :
  ~ (is_ValueError (find_closest_index [] (Float.of_Z 4))
     <-> NaN ∈ @nil float).
Proof.
  intros [Hraise _].
  assert (NaN ∈ @nil float) as Hin.
  { apply Hraise. eexists. reflexivity. }
  by apply elem_of_nil in Hin.
Qed.

(** C10. On non-empty NaN-free data [find_closest_index] returns a valid
    index of minimal absolute difference to the point that is at most
    every index of minimal absolute difference: under ties, the first. *)
Theorem find_closest_index_first (data : list float) (datapoint : float) :
  data <> [] -> NaN ∉ data ->
  exists i : nat,
    find_closest_index data datapoint = ok i /\
    (i < length data)%nat /\
    closest data datapoint i /\
    (forall j : nat, closest data datapoint j -> (i <= j)%nat).
Proof.
  intros Hne Hfree.
  destruct (nan_free_Fin data Hfree) as (qs & ->).
  assert (qs <> []) as Hqs by (by destruct qs).
  assert (0 < length qs)%nat as Hlen by (destruct qs; [done | simpl; lia]).
  destruct datapoint as [| p].
  - exists 0%nat. rewrite find_closest_index_NaN_point by done.
    split_and!; [done | by rewrite length_map | by apply closest_NaN |].
    intros j _. lia.
  - destruct (find_closest_index_Fin qs p Hqs)
      as (i & q & Hi & Hq & Hmin & Hfirst).
    exists i. split_and!.
    + done.
    + rewrite length_map. by eapply lookup_lt_Some.
    + apply closest_Fin. by exists q.
    + intros j (qj & Hj & Hjmin)%closest_Fin.
      destruct (Nat.le_gt_cases i j) as [Hle | Hlt]; [done |].
      pose proof (Hfirst j qj Hlt Hj) as Hstrict.
      pose proof (Hjmin i q Hq) as Hweak.
      exfalso. by eapply Qclt_not_le.
Qed.

Lemma find_closest_index_first_witness :
  exists i : nat,
    find_closest_index [Float.of_Z 6; Float.of_Z 2; Float.of_Z 6]
      (Float.of_Z 4) = ok i /\
    (i < 3)%nat /\
    closest [Float.of_Z 6; Float.of_Z 2; Float.of_Z 6] (Float.of_Z 4) i /\
    (forall j : nat,
       closest [Float.of_Z 6; Float.of_Z 2; Float.of_Z 6] (Float.of_Z 4) j ->
       (i <= j)%nat).
Proof.
  apply (find_closest_index_first
           [Float.of_Z 6; Float.of_Z 2; Float.of_Z 6] (Float.of_Z 4)).
  - discriminate.
  - intros [? | [? | [? | ?%elem_of_nil]%elem_of_cons]%elem_of_cons]%elem_of_cons;
      done.
Defined.

(** ** Closest smaller index *)

Section ClosestSmaller.
Local Open Scope Qc_scope.

Lemma lt_min_difference_false (v : Qc) (md : option float) :
  numeric md ->
  lt_min_difference (Fin v) md = false ->
  exists m : Qc, md = Some (Fin m) /\ m <= v.
Proof.
  intros [-> | (m & ->)] Hlt; [done |].
  exists m. split; [done |]. by apply ltb_Fin_false.
Qed.

(** A candidate below the later minimum is below the earlier one. *)
Lemma lt_min_difference_trans (v w : Qc) (md : option float) :
  numeric md ->
  v < w -> lt_min_difference (Fin w) md = true ->
  lt_min_difference (Fin v) md = true.
Proof.
  intros [-> | (m & ->)] Hvw Hw; [done |].
  apply ltb_Fin. apply ltb_Fin in Hw. by eapply Qclt_trans.
Qed.

Lemma closest_smaller_loop_NaN (md : option float) (idx i : nat)
    (data : list float) :
  closest_smaller_loop NaN md idx i data = idx.
Proof.
  revert md idx i. induction data as [| d data IH]; intros md idx i; simpl;
    [done |].
  assert (Float.ltb d NaN = false) as -> by (by destruct d).
  destruct (lt_min_difference _ _); apply IH.
Qed.

(** The loop from position [i] on: either no sample of [data] that is
    smaller than the point gets under [min_difference] and [idx] is kept,
    or the result is the first position of the smaller sample closest to
    the point. *)
Lemma closest_smaller_loop_spec (p : Qc) (data : list float)
    (md : option float) (idx i : nat) :
  numeric md ->
  (closest_smaller_loop (Fin p) md idx i data = idx
   /\ forall (k : nat) (x : Qc),
        data !! k = Some (Fin x) -> x < p ->
        lt_min_difference (Fin (Float.Qcabs (x - p))) md = false)
  \/ (exists (k : nat) (x : Qc),
        closest_smaller_loop (Fin p) md idx i data = (i + k)%nat
        /\ data !! k = Some (Fin x) /\ x < p
        /\ lt_min_difference (Fin (Float.Qcabs (x - p))) md = true
        /\ (forall (k' : nat) (x' : Qc),
              data !! k' = Some (Fin x') -> x' < p ->
              Float.Qcabs (x - p) <= Float.Qcabs (x' - p))
        /\ (forall (k' : nat) (x' : Qc),
              (k' < k)%nat -> data !! k' = Some (Fin x') -> x' < p ->
              Float.Qcabs (x - p) < Float.Qcabs (x' - p))).
Proof.
  revert md idx i. induction data as [| d data IH]; intros md idx i Hmd.
  - left. split; [done |]. intros k x Hk. by rewrite lookup_nil in Hk.
  - destruct d as [| x].
    { (* a NaN sample is passed over *)
      assert (closest_smaller_loop (Fin p) md idx i (NaN :: data)
              = closest_smaller_loop (Fin p) md idx (S i) data) as ->.
      { simpl. by destruct Hmd as [-> | (m & ->)]. }
      destruct (IH md idx (S i) Hmd)
        as [[Hr Hnone] | (k & y & Hr & Hk & Hy & Hlt & Hmin & Hfirst)].
      - left. split; [done |]. intros [| k] y Hk Hy; [done |].
        by eapply Hnone.
      - right. exists (S k), y. split_and!; try done.
        + rewrite Hr. lia.
        + intros [| k'] y' Hk' Hy'; [done |]. by eapply Hmin.
        + intros [| k'] y' Hlt' Hk' Hy'; [done |].
          eapply Hfirst; [| done | done]. lia. }
    cbn [closest_smaller_loop Float.sub Float.abs].
    destruct (lt_min_difference (Fin (Float.Qcabs (x - p))) md) eqn:Hx;
      [destruct (Float.ltb (Fin x) (Fin p)) eqn:Hxp |].
    + (* the sample becomes the new candidate *)
      apply ltb_Fin in Hxp.
      destruct (IH (Some (Fin (Float.Qcabs (x - p)))) i (S i))
        as [[Hr Hnone] | (k & y & Hr & Hk & Hy & Hlt & Hmin & Hfirst)].
      { right. by eexists. }
      * right. exists 0%nat, x. split_and!; try done.
        -- rewrite Hr. lia.
        -- intros [| k'] x' Hk' Hx'; simpl in Hk'.
           ++ injection Hk' as <-. apply Qcle_refl.
           ++ apply ltb_Fin_false. by eapply Hnone.
        -- intros k' x' Hlt'. lia.
      * apply ltb_Fin in Hlt.
        right. exists (S k), y. split_and!; try done.
        -- rewrite Hr. lia.
        -- by eapply lt_min_difference_trans.
        -- intros [| k'] x' Hk' Hx'; simpl in Hk'.
           ++ injection Hk' as <-. by apply Qclt_le_weak.
           ++ by eapply Hmin.
        -- intros [| k'] x' Hlt' Hk' Hx'; simpl in Hk'.
           ++ by injection Hk' as <-.
           ++ eapply Hfirst; [| done | done]. lia.
    + (* the sample is not smaller than the point *)
      apply ltb_Fin_false in Hxp.
      destruct (IH md idx (S i) Hmd)
        as [[Hr Hnone] | (k & y & Hr & Hk & Hy & Hlt & Hmin & Hfirst)].
      * left. split; [done |]. intros [| k] y Hk Hy; simpl in Hk.
        -- injection Hk as <-. exfalso. by eapply Qclt_not_le.
        -- by eapply Hnone.
      * right. exists (S k), y. split_and!; try done.
        -- rewrite Hr. lia.
        -- intros [| k'] x' Hk' Hx'; simpl in Hk'.
           ++ injection Hk' as <-. exfalso. by eapply Qclt_not_le.
           ++ by eapply Hmin.
        -- intros [| k'] x' Hlt' Hk' Hx'; simpl in Hk'.
           ++ injection Hk' as <-. exfalso. by eapply Qclt_not_le.
           ++ eapply Hfirst; [| done | done]. lia.
    + (* the sample is not under the current minimum *)
      destruct (lt_min_difference_false _ _ Hmd Hx) as (m & -> & Hm).
      destruct (IH (Some (Fin m)) idx (S i) Hmd)
        as [[Hr Hnone] | (k & y & Hr & Hk & Hy & Hlt & Hmin & Hfirst)].
      * left. split; [done |]. intros [| k] y Hk Hy; simpl in Hk.
        -- by injection Hk as <-.
        -- by eapply Hnone.
      * apply ltb_Fin in Hlt.
        right. exists (S k), y. split_and!; try done.
        -- rewrite Hr. lia.
        -- by apply ltb_Fin.
        -- intros [| k'] x' Hk' Hx'; simpl in Hk'.
           ++ injection Hk' as <-. apply Qclt_le_weak.
              by eapply Qclt_le_trans.
           ++ by eapply Hmin.
        -- intros [| k'] x' Hlt' Hk' Hx'; simpl in Hk'.
           ++ injection Hk' as <-. by eapply Qclt_le_trans.
           ++ eapply Hfirst; [| done | done]. lia.
Qed.

End ClosestSmaller.

(** C4. If some sample is strictly less than the point,
    [find_closest_smaller_index] returns the index of a sample strictly
    less than the point whose absolute difference to it is minimal among
    such samples, and the first such index; if no sample is strictly less,
    it returns 0.  On [1, 3, 7] and 5 that is index 1; on [10, 20] and 5
    it is 0. *)
Theorem find_closest_smaller_index_spec (data : list float)
    (datapoint : float) :
  ((exists j : nat, smaller data datapoint j) ->
   exists d : float,
     data !! find_closest_smaller_index data datapoint = Some d /\
     Float.ltb d datapoint = true /\
     (forall (j : nat) (dj : float),
        data !! j = Some dj -> Float.ltb dj datapoint = true ->
        Float.leb (Float.abs (Float.sub d datapoint))
                  (Float.abs (Float.sub dj datapoint)) = true) /\
     (forall (j : nat) (dj : float),
        (j < find_closest_smaller_index data datapoint)%nat ->
        data !! j = Some dj -> Float.ltb dj datapoint = true ->
        Float.ltb (Float.abs (Float.sub d datapoint))
                  (Float.abs (Float.sub dj datapoint)) = true)) /\
  ((forall j : nat, ~ smaller data datapoint j) ->
   find_closest_smaller_index data datapoint = 0%nat) /\
  find_closest_smaller_index [Float.of_Z 1; Float.of_Z 3; Float.of_Z 7]
    (Float.of_Z 5) = 1%nat /\
  find_closest_smaller_index [Float.of_Z 10; Float.of_Z 20] (Float.of_Z 5)
  = 0%nat.
Proof.
  split_and!; [| | reflexivity | reflexivity].
  - intros (j0 & d0 & Hj0 & Hd0).
    destruct datapoint as [| p]; [by destruct d0 |].
    destruct d0 as [| x0]; [done |]. apply ltb_Fin in Hd0.
    unfold find_closest_smaller_index.
    destruct (closest_smaller_loop_spec p data None 0 0)
      as [[Hr Hnone] | (k & x & Hr & Hk & Hx & _ & Hmin & Hfirst)].
    { by left. }
    + by specialize (Hnone j0 x0 Hj0 Hd0).
    + rewrite Hr. simpl. exists (Fin x). split_and!.
      * done.
      * by apply ltb_Fin.
      * intros j [| xj] Hj Hlt; [done |].
        apply leb_Fin. apply (Hmin j); [done |]. by apply ltb_Fin.
      * intros j [| xj] Hjk Hj Hlt; [done |].
        apply ltb_Fin. apply (Hfirst j); [done | done |]. by apply ltb_Fin.
  - intros Hnone. unfold find_closest_smaller_index.
    destruct datapoint as [| p]; [apply closest_smaller_loop_NaN |].
    destruct (closest_smaller_loop_spec p data None 0 0)
      as [[Hr _] | (k & x & _ & Hk & Hx & _)].
    { by left. }
    + done.
    + exfalso. apply (Hnone k). exists (Fin x).
      split; [done |]. by apply ltb_Fin.
Qed.

Lemma find_closest_smaller_index_witness :
  (exists d : float,
     [Float.of_Z 4; Float.of_Z 1; Float.of_Z 9; Float.of_Z 4]
       !! find_closest_smaller_index
            [Float.of_Z 4; Float.of_Z 1; Float.of_Z 9; Float.of_Z 4]
            (Float.of_Z 6)
     = Some d /\ Float.ltb d (Float.of_Z 6) = true)
  /\ find_closest_smaller_index [Float.of_Z 8; Float.of_Z 9] (Float.of_Z 6)
     = 0%nat.
Proof.
  split.
  - destruct (proj1 (find_closest_smaller_index_spec
                       [Float.of_Z 4; Float.of_Z 1; Float.of_Z 9;
                        Float.of_Z 4] (Float.of_Z 6)))
      as (d & Hd & Hlt & _).
    + exists 1%nat, (Float.of_Z 1). split; reflexivity.
    + exists d. split; [exact Hd | exact Hlt].
  - apply (proj1 (proj2 (find_closest_smaller_index_spec
                           [Float.of_Z 8; Float.of_Z 9] (Float.of_Z 6)))).
    intros [| [| j]] (d & Hd & Hlt); simpl in Hd.
    + injection Hd as <-. discriminate Hlt.
    + injection Hd as <-. discriminate Hlt.
    + discriminate Hd.
Defined.

(** ** Seconds to samples, and the stimulation blocks *)

(** Turns a goal and its hypotheses about canonical rationals into ones
    about plain rationals, where [lra] applies. *)
Ltac qc_to_q :=
  unfold Qcle, Qclt, Qcminus, Qcdiv in *;
  cbn [this Qcplus Qcopp Qcmult Q2Qc Qc_of_Z] in *;
  rewrite ?Qred_correct in *.

Section TimeToSample.
Local Open Scope Qc_scope.










End TimeToSample.




(** ** Validation of the reference markers *)

Section Markers.
Import Kinematics.










Lemma legacy_select_present (df : list (string * list float))
    (marker : string) :
  marker ∈ map fst df -> exists trace, legacy_select df marker = ok trace.
Proof.
  intros Hin. unfold legacy_select.
  induction df as [| c df IH]; [by apply elem_of_nil in Hin |].
  simpl in *. destruct (bool_decide_reflect (fst c = marker)) as [Hc | Hc].
  - by eexists.
  - apply elem_of_cons in Hin as [Heq | Hin]; [done |]. by apply IH.
Qed.


End Markers.

Import Kinematics.






(** * Further properties of the code *)

(** ** Rising edges *)

Section RisingEdges.

Lemma every_other_cons {A} (x : A) (l : list A) :
  Np.every_other (x :: l) = x :: Np.every_other (tail l).
Proof. by destruct l. Qed.

Lemma diff_bool_cons (p b : bool) (a : list bool) :
  Np.diff_bool p (b :: a) = xorb b p :: Np.diff_bool b a.
Proof. done. Qed.

(** Sign changes alternate between rising and falling: after a low value
    the even-positioned ones rise, after a high value the odd-positioned
    ones do. *)
Lemma rises_alternate (mask : list bool) (s : Z) :
  Np.every_other (Np.where_from s (Np.diff_bool false mask))
  = rises_from s false mask
  /\ Np.every_other (tail (Np.where_from s (Np.diff_bool true mask)))
     = rises_from s true mask.
Proof.
  revert s. induction mask as [| b mask IH]; intros s; [done |].
  destruct (IH (s + 1)) as [IHlow IHhigh].
  rewrite !diff_bool_cons.
  destruct b; cbn [xorb negb andb Np.where_from rises_from tail].
  - split.
    + by rewrite every_other_cons, IHhigh.
    + exact IHhigh.
  - split.
    + exact IHlow.
    + exact IHlow.
Qed.

Lemma elem_of_rises_from (mask : list bool) (s : Z) (prev : bool) (z : Z) :
  z ∈ rises_from s prev mask
  <-> exists i : nat,
        z = s + Z.of_nat i /\ mask !! i = Some true /\
        match i with
        | O => prev = false
        | S j => mask !! j = Some false
        end.
Proof.
  revert s prev. induction mask as [| b mask IH]; intros s prev.
  - simpl. split; [by intros ?%elem_of_nil | by intros (i & _ & ? & _)].
  - assert (z ∈ rises_from (s + 1) b mask
            <-> exists i : nat,
                  z = s + Z.of_nat (S i) /\ (b :: mask) !! S i = Some true /\
                  (b :: mask) !! i = Some false) as Htail.
    { rewrite IH. split.
      - intros (i & -> & Hi & Hprev). exists i. split_and!; [lia | done |].
        destruct i as [| j]; simpl; [by rewrite Hprev | done].
      - intros (i & -> & Hi & Hprev). exists i. split_and!; [lia | done |].
        destruct i as [| j]; simpl in *; [by injection Hprev | done]. }
    cbn [rises_from].
    destruct (b && negb prev) eqn:Hhead.
    + apply andb_true_iff in Hhead as [-> Hprev%negb_true_iff].
      rewrite elem_of_cons, Htail. split.
      * intros [-> | (i & -> & Hi & Hp)].
        -- exists 0%nat. split_and!; [lia | done | done].
        -- by exists (S i).
      * intros ([| i] & -> & Hi & Hp); [left; lia | right; by exists i].
    + rewrite Htail. split.
      * intros (i & -> & Hi & Hp). by exists (S i).
      * intros ([| i] & -> & Hi & Hp); [| by exists i].
        simpl in Hi. injection Hi as ->. by rewrite Hp in Hhead.
Qed.

End RisingEdges.

Lemma elem_of_stim_timestamps (sync_ch : list float) (z : Z) :
  z ∈ get_stim_timestamps sync_ch None
  <-> exists i : nat, z = Z.of_nat i /\ rising_edge sync_ch i.
Proof.
  unfold get_stim_timestamps, truthy, Np.where_.
  change (map (fun v => Float.ltb (Fin 0%Qc) v) sync_ch)
    with (above_zero sync_ch).
  rewrite (proj1 (rises_alternate (above_zero sync_ch) 0)).
  rewrite elem_of_rises_from. unfold rising_edge. split.
  - intros (i & -> & Hi & Hprev). exists i. split_and!; [lia | done |].
    by destruct i.
  - intros (i & -> & Hi & Hprev). exists i. split_and!; [lia | done |].
    by destruct i.
Qed.

(** X1. Without an expected count [get_stim_timestamps] returns exactly the
    rising edges of the sync channel: the positions whose sample is above
    zero while the sample before, if there is one, is not. *)
Theorem get_stim_timestamps_rising_edges (sync_ch : list float) (z : Z) :
  z ∈ get_stim_timestamps sync_ch None
  <-> exists i : nat, z = Z.of_nat i /\ rising_edge sync_ch i.
Proof. apply elem_of_stim_timestamps. Qed.

(** ** Stimulation blocks *)

Section Blocks.
Context {A : Type}.
Implicit Types l : list A.

(** A stride keeps the elements at [skip], [skip + step + 1], ... *)
Lemma stride_from_lookup l (skip step i : nat) :
  Np.stride_from skip step l !! i = l !! (skip + i * S step)%nat.
Proof.
  revert skip i. induction l as [| x l IH]; intros skip i; simpl.
  - by rewrite !lookup_nil.
  - destruct skip as [| k].
    + destruct i as [| i]; [done |]. simpl. by rewrite IH.
    + simpl. apply IH.
Qed.

Lemma stride_from_subseteq l (skip step : nat) (x : A) :
  x ∈ Np.stride_from skip step l -> x ∈ l.
Proof.
  intros (i & Hi)%list_elem_of_lookup_1. rewrite stride_from_lookup in Hi.
  by eapply list_elem_of_lookup_2.
Qed.

Lemma stride_from_sorted (R : A -> A -> Prop) l (skip step : nat) :
  StronglySorted R l -> StronglySorted R (Np.stride_from skip step l).
Proof.
  intros Hl. revert skip. induction Hl as [| x l Hl IH Hx]; intros skip;
    simpl; [constructor |].
  destruct skip as [| k]; [| apply IH].
  constructor; [apply IH |].
  apply Forall_forall. intros y Hy%stride_from_subseteq.
  rewrite Forall_forall in Hx. by apply Hx.
Qed.

(** Successive picks are [step + 1] apart, which bounds their number. *)
Lemma stride_from_length l (skip step : nat) :
  (skip <= step)%nat ->
  (S step * length (Np.stride_from skip step l) + skip
   <= length l + step)%nat.
Proof.
  revert skip. induction l as [| x l IH]; intros skip Hskip; simpl.
  - lia.
  - destruct skip as [| k]; simpl.
    + specialize (IH step ltac:(lia)). lia.
    + specialize (IH k ltac:(lia)). lia.
Qed.

Lemma take_sorted (R : A -> A -> Prop) l (n : nat) :
  StronglySorted R l -> StronglySorted R (take n l).
Proof.
  intros Hl. rewrite <- (take_drop n l) in Hl.
  by apply StronglySorted_app_1_l in Hl.
Qed.

End Blocks.

Lemma get_stim_timestamps_take (sync_ch : list float) (N : Z) :
  1 <= N ->
  get_stim_timestamps sync_ch (Some N)
  = take (Z.to_nat N) (get_stim_timestamps sync_ch None).
Proof.
  intros HN. unfold get_stim_timestamps, truthy.
  destruct (Z.eqb_spec N 0) as [-> | _]; [lia |]. simpl.
  rewrite <- (Z2Nat.id N) at 1 by lia. apply slice_upto.
Qed.

Lemma stim_timestamps_sorted (sync_ch : list float) :
  StronglySorted Z.lt (get_stim_timestamps sync_ch None).
Proof. apply every_other_sorted, where_from_sorted. Qed.

Lemma time_to_sample_nonneg (timestamp rate : Qc) (is_t1 is_t2 : bool) :
  0 <= time_to_sample timestamp rate is_t1 is_t2 < 2 ^ 64.
Proof. unfold time_to_sample, np_uint64. apply Z.mod_pos_bound. lia. Qed.

(** X2. On a one-dimensional sync channel, with at least one amplitude and
    one pulse per block, [get_timestamps_stim_blocks] returns at most
    [n_amp_tested] blocks; block [i] starts at stimulation timestamp
    [i * pulses], which is a rising edge of the channel; the onsets are
    strictly increasing and no block ends before it starts. *)
Theorem get_timestamps_stim_blocks_onsets (neudata : NeuralData)
    (n_amp_tested pulses : Z) (time_stim : Qc) :
  (length (sync_shape neudata) <= 1)%nat ->
  1 <= n_amp_tested -> 1 <= pulses ->
  exists blocks : list (Z * Z),
    get_timestamps_stim_blocks neudata n_amp_tested pulses time_stim
    = ok blocks /\
    Z.of_nat (length blocks) <= n_amp_tested /\
    StronglySorted Z.lt (map fst blocks) /\
    Forall (fun b => fst b <= snd b) blocks /\
    forall (i : nat) (b : Z * Z),
      blocks !! i = Some b ->
      get_stim_timestamps (sync_data neudata) None
        !! (i * Z.to_nat pulses)%nat = Some (fst b)
      /\ exists j : nat,
           fst b = Z.of_nat j /\ rising_edge (sync_data neudata) j.
Proof.
  intros Hshape Hamp Hpulses. unfold get_timestamps_stim_blocks.
  destruct (decide _) as [Hmulti | _]; [lia |].
  unfold Np.slice_step.
  destruct (Z.eqb_spec pulses 0) as [? | _]; [lia |].
  destruct (Z.ltb_spec pulses 0) as [? | _]; [lia |].
  rewrite get_stim_timestamps_take by nia.
  set (stamps := get_stim_timestamps (sync_data neudata) None).
  set (total := Z.to_nat (n_amp_tested * pulses)).
  set (step := (Z.to_nat pulses - 1)%nat).
  set (stim_len := time_to_sample time_stim (fs neudata) false true).
  assert (S step = Z.to_nat pulses) as Hstep by (unfold step; lia).
  cbn [bind ok]. eexists. split; [reflexivity |]. split_and!.
  - rewrite length_map.
    pose proof (stride_from_length (take total stamps) 0 step ltac:(lia))
      as Hlen.
    rewrite length_take, Hstep in Hlen.
    assert (total = Z.to_nat n_amp_tested * Z.to_nat pulses)%nat as Htotal.
    { unfold total. apply Z2Nat.inj_mul; lia. }
    generalize dependent (length (Np.stride_from 0 step (take total stamps))).
    intros blocks Hlen.
    assert (blocks <= Z.to_nat n_amp_tested)%nat; [nia | lia].
  - rewrite map_map. simpl. rewrite map_id.
    apply stride_from_sorted, take_sorted, stim_timestamps_sorted.
  - apply Forall_forall. intros b (o & -> & _)%list_elem_of_fmap_1. simpl.
    pose proof (time_to_sample_nonneg time_stim (fs neudata) false true).
    fold stim_len in H. lia.
  - intros i b Hb. rewrite list_lookup_fmap in Hb.
    destruct (Np.stride_from 0 step (take total stamps) !! i)
      as [o |] eqn:Ho; [| done].
    injection Hb as <-. simpl.
    rewrite stride_from_lookup in Ho. simpl in Ho. rewrite Hstep in Ho.
    apply lookup_take_Some in Ho as [Ho _].
    split; [done |].
    apply elem_of_stim_timestamps. by eapply list_elem_of_lookup_2.
Qed.

Lemma get_timestamps_stim_blocks_onsets_witness :
  exists blocks : list (Z * Z),
    get_timestamps_stim_blocks
      {| sync_data := [Float.of_Z 0; Float.of_Z 1; Float.of_Z 0;
                       Float.of_Z 1; Float.of_Z 0; Float.of_Z 1];
         sync_shape := [6%nat];
         fs := Q2Qc 10 |} 2 1 (Q2Qc 2)
    = ok blocks /\
    Z.of_nat (length blocks) <= 2.
Proof.
  destruct (get_timestamps_stim_blocks_onsets
              {| sync_data := [Float.of_Z 0; Float.of_Z 1; Float.of_Z 0;
                               Float.of_Z 1; Float.of_Z 0; Float.of_Z 1];
                 sync_shape := [6%nat];
                 fs := Q2Qc 10 |} 2 1 (Q2Qc 2))
    as (blocks & Hok & Hlen & _).
  - simpl. lia.
  - lia.
  - lia.
  - exists blocks. split; [exact Hok | exact Hlen].
Defined.

(** ** Windows of the running mean *)

Section Windows.
Local Open Scope Qc_scope.





End Windows.



(** X4. A window longer than the signal gives an empty result rather than
    an error, while a window of 0 on a non-empty signal raises a
    [ValueError]: the two slices of the running sums no longer have
    matching shapes. *)
Theorem running_mean_edges (x : list float) (n : Z) :
  (Z.of_nat (length x) < n -> running_mean x n = ok []) /\
  (n = 0 -> x <> [] -> is_ValueError (running_mean x n)).
Proof.
  unfold running_mean. rewrite cumsum_insert_zero.
  set (cs := Fin 0%Qc :: Arr.cumsum_from (Fin 0%Qc) x).
  assert (length cs = S (length x)) as Hcs.
  { unfold cs. simpl. by rewrite length_cumsum_from. }
  split.
  - intros Hn.
    assert (exists m : nat, n = Z.of_nat m /\ (length x < m)%nat)
      as (m & -> & Hm).
    { exists (Z.to_nat n). lia. }
    rewrite slice_from, slice_upto_neg by lia.
    rewrite drop_ge by lia.
    replace (length cs - m)%nat with 0%nat by lia. by rewrite take_0.
  - intros -> Hne.
    change (Some 0) with (Some (Z.of_nat 0)).
    change (Some (- 0)) with (Some (Z.of_nat 0)).
    rewrite (slice_from cs 0), (slice_upto cs 0), drop_0, take_0.
    unfold Arr.subtract.
    destruct (decide _) as [Heq | _]; [simpl in Heq; lia |].
    destruct x as [| x0 x']; [done |]. eexists. reflexivity.
Qed.

Lemma running_mean_edges_witness :
  running_mean [Float.of_Z 1; Float.of_Z 2] 5 = ok []
  /\ is_ValueError (running_mean [Float.of_Z 1; Float.of_Z 2] 0).
Proof.
  destruct (running_mean_edges [Float.of_Z 1; Float.of_Z 2] 5) as [Hlong _].
  destruct (running_mean_edges [Float.of_Z 1; Float.of_Z 2] 0) as [_ Hzero].
  split.
  - apply Hlong. simpl. lia.
  - apply Hzero; [reflexivity | discriminate].
Defined.

(** ** Trimming and the shape of the parsed matrix *)

Section Trimming.
Context {A : Type}.
Implicit Types (raw : list A) (chunks : list (list A)).

Lemma min_len_elem (lens : list nat) :
  lens <> [] -> Arr.min_len lens ∈ lens.
Proof.
  destruct lens as [| n0 lens]; [done |]. intros _. simpl.
  revert n0. induction lens as [| n1 lens IH]; intros n0; simpl.
  - by left.
  - destruct (Nat.min_spec n1 (foldr Nat.min n0 lens)) as [[_ ->] | [_ ->]].
    + right. by left.
    + specialize (IH n0). apply elem_of_cons in IH as [-> | IH].
      * by left.
      * right. by right.
Qed.

Lemma trim_equal_len_take chunks :
  trim_equal_len chunks
  = map (take (Arr.min_len (map length chunks))) chunks.
Proof. unfold trim_equal_len. apply map_ext. intros r. apply slice_upto. Qed.

Lemma min_len_constant (w : nat) (lens : list nat) :
  lens <> [] -> Forall (fun n => n = w) lens -> Arr.min_len lens = w.
Proof.
  intros Hne Hall. pose proof (min_len_elem lens Hne) as Hin.
  rewrite Forall_forall in Hall. by apply Hall.
Qed.

Lemma slice_is_window raw (start stop : option Z) :
  exists s c : nat, Np.slice raw start stop = take c (drop s raw).
Proof. unfold Np.slice. by eexists _, _. Qed.

Lemma split_from_windows raw (st : Z) (ends : list Z) (chunk : list A) :
  chunk ∈ Arr.split_from raw st ends ->
  exists s c : nat, chunk = take c (drop s raw).
Proof.
  revert st. induction ends as [| e ends IH]; intros st; simpl.
  - by intros ?%elem_of_nil.
  - intros [-> | Hin]%elem_of_cons; [apply slice_is_window | by eapply IH].
Qed.

End Trimming.

(** X5. [trim_equal_len] keeps the number of sequences and cuts each to its
    first [w] elements, [w] being the length of a shortest one; trimming a
    second time changes nothing. *)
Theorem trim_equal_len_prefixes {A} (raw : list (list A)) :
  exists w : nat,
    trim_equal_len raw = map (take w) raw /\
    Forall (fun r => (w <= length r)%nat) raw /\
    (raw <> [] -> exists r, r ∈ raw /\ length r = w) /\
    trim_equal_len (trim_equal_len raw) = trim_equal_len raw.
Proof.
  exists (Arr.min_len (map length raw)).
  assert (Forall (fun r => (Arr.min_len (map length raw) <= length r)%nat)
            raw) as Hle.
  { apply Forall_forall. intros r Hr. apply min_len_le.
    by apply list_elem_of_fmap_2. }
  split_and!.
  - apply trim_equal_len_take.
  - exact Hle.
  - intros Hne.
    assert (map length raw <> []) as Hne' by (by destruct raw).
    apply min_len_elem in Hne'.
    apply list_elem_of_fmap in Hne' as (r & Hlen & Hr). by exists r.
  - destruct raw as [| r0 raw']; [done |].
    set (raw := r0 :: raw') in *.
    rewrite (trim_equal_len_take (trim_equal_len raw)).
    rewrite (min_len_constant (Arr.min_len (map length raw))).
    + rewrite trim_equal_len_take, map_map. apply map_ext.
      intros r. apply take_idemp.
    + rewrite trim_equal_len_take. done.
    + apply Forall_fmap. apply trim_equal_len_rows.
Qed.

Lemma trim_equal_len_prefixes_witness :
  exists w : nat,
    trim_equal_len [[1; 2; 3]; [4; 5]] = map (take w) [[1; 2; 3]; [4; 5]] /\
    exists r : list Z, r ∈ [[1; 2; 3]; [4; 5]] /\ length r = w.
Proof.
  destruct (trim_equal_len_prefixes [[1; 2; 3]; [4; 5]])
    as (w & Htrim & _ & Hshortest & _).
  exists w. split; [exact Htrim | apply Hshortest; discriminate].
Defined.

Section ParsedMatrix.
Context {A : Type}.
Implicit Types (raw : list A) (chunks : list (list A)).

Lemma vstack_trimmed_inv chunks (m : list (list A)) :
  Arr.vstack (trim_equal_len chunks) = ok m ->
  chunks <> [] /\ m = trim_equal_len chunks.
Proof.
  destruct chunks as [| c chunks]; [done |].
  rewrite vstack_trimmed by done. by intros [= <-].
Qed.

Lemma vstack_trimmed_error chunks (e : exn) :
  Arr.vstack (trim_equal_len chunks) = inl e ->
  chunks = [] /\ e = ValueError "need at least one array to concatenate".
Proof.
  destruct chunks as [| c chunks]; [by intros [= <-] |].
  by rewrite vstack_trimmed.
Qed.

Lemma parse_raw_unfold raw (stimulation_idxs : list Z)
    (samples_before_stim : Z) (skip_one : bool) (min_len_chunk : Z) :
  stimulation_idxs <> [] ->
  parse_raw raw stimulation_idxs samples_before_stim skip_one min_len_chunk
  = Arr.vstack
      (trim_equal_len
         (List.filter
            (fun chunk => min_len_chunk <=? Z.of_nat (length chunk))
            (Np.slice
               (Arr.split raw
                  (adjusted_onsets stimulation_idxs samples_before_stim
                     skip_one))
               (Some 1) None))).
Proof.
  intros Hne. destruct stimulation_idxs as [| i0 idxs]; [done |].
  unfold parse_raw, adjusted_onsets. simpl map.
  by destruct (i0 - samples_before_stim <? 0), skip_one.
Qed.

(** The chunks [parse_raw] stacks: windows of the signal that pass the
    length filter. *)
Lemma parse_raw_chunks raw (idxs : list Z) (min_len_chunk : Z)
    (chunk : list A) :
  chunk ∈ List.filter
            (fun chunk => min_len_chunk <=? Z.of_nat (length chunk))
            (Np.slice (Arr.split raw idxs) (Some 1) None) ->
  min_len_chunk <= Z.of_nat (length chunk)
  /\ exists s c : nat, chunk = take c (drop s raw).
Proof.
  intros Hin%list_elem_of_In. apply filter_In in Hin as [Hin Hlen].
  apply list_elem_of_In in Hin. split; [by apply Z.leb_le |].
  rewrite (slice_from _ 1) in Hin. apply subseteq_drop in Hin.
  by eapply split_from_windows.
Qed.

End ParsedMatrix.

(** X6. Whatever its arguments, when [parse_raw] returns a matrix it has at
    least one row, all rows have one length [w >= min_len_chunk], and every
    row is [w] consecutive samples of the signal.  It fails only with an
    [IndexError], exactly when there is no onset, or with the [ValueError]
    of stacking nothing, when no chunk is long enough. *)
Theorem parse_raw_shape {A} (raw : list A) (stimulation_idxs : list Z)
    (samples_before_stim : Z) (skip_one : bool) (min_len_chunk : Z) :
  (forall m : list (list A),
     parse_raw raw stimulation_idxs samples_before_stim skip_one
       min_len_chunk = ok m ->
     m <> [] /\
     exists w : nat,
       min_len_chunk <= Z.of_nat w /\
       Forall (fun row =>
                 length row = w /\
                 exists s : nat, row = take w (drop s raw)) m) /\
  (forall e : exn,
     parse_raw raw stimulation_idxs samples_before_stim skip_one
       min_len_chunk = inl e ->
     (stimulation_idxs = [] /\ exists msg, e = IndexError msg)
     \/ (stimulation_idxs <> []
         /\ e = ValueError "need at least one array to concatenate")).
Proof.
  destruct stimulation_idxs as [| i0 idxs].
  { split; [done |]. intros e [= <-]. left. split; [done | by eexists]. }
  rewrite parse_raw_unfold by done.
  set (chunks := @List.filter (list A) _ _).
  split.
  - intros m (Hne & ->)%vstack_trimmed_inv. split.
    { rewrite trim_equal_len_take. by destruct chunks. }
    exists (Arr.min_len (map length chunks)). split.
    + assert (map length chunks <> []) as Hne' by (by destruct chunks).
      apply min_len_elem in Hne'.
      apply list_elem_of_fmap in Hne' as (c & -> & Hc).
      by apply parse_raw_chunks in Hc as [Hc _].
    + pose proof (trim_equal_len_rows chunks) as Hrows.
      rewrite trim_equal_len_take in Hrows |- *.
      apply Forall_forall. intros row Hrow.
      rewrite Forall_forall in Hrows. split; [by apply Hrows |].
      apply list_elem_of_fmap in Hrow as (c & -> & Hc).
      pose proof (min_len_le (map length chunks) (length c)
                    ltac:(by apply list_elem_of_fmap_2)) as Hle.
      apply parse_raw_chunks in Hc as [_ (s & n & ->)].
      exists s. rewrite take_take. f_equal.
      rewrite length_take in Hle. lia.
  - intros e (_ & ->)%vstack_trimmed_error. by right.
Qed.

Lemma parse_raw_shape_witness :
  [[20]; [30]] <> @nil (list Z) /\
  exists w : nat,
    1 <= Z.of_nat w /\
    Forall (fun row =>
              length row = w /\
              exists s : nat, row = take w (drop s [10; 20; 30; 40]))
           [[20]; [30]].
Proof.
  apply (proj1 (parse_raw_shape [10; 20; 30; 40] [1; 2] 0 false 1)).
  reflexivity.
Defined.

(** ** Rows aligned to the onsets *)

Section Alignment.
Context {A : Type}.
Implicit Types (raw : list A) (chunks : list (list A)).

Lemma every_other_fmap {B C} (f : B -> C) (l : list B) :
  Np.every_other (map f l) = map f (Np.every_other l).
Proof.
  induction l as [l IH] using (induction_ltof1 _ (@length B)).
  unfold ltof in IH. destruct l as [| x [| y l'']]; [done | done |].
  simpl. f_equal. apply IH. simpl. lia.
Qed.

Lemma every_other_nonempty {B} (l : list B) :
  l <> [] -> Np.every_other l <> [].
Proof. by destruct l. Qed.

(** Cutting every piece of a split to [w] samples gives the [w] samples
    that follow each division point but the last. *)
Lemma split_from_starts raw (w : nat) (others : list Z) (st : Z) :
  0 <= st ->
  StronglySorted Z.lt (st :: others ++ [Z.of_nat (length raw)]) ->
  Forall (fun chunk => (w <= length chunk)%nat)
    (Arr.split_from raw st (others ++ [Z.of_nat (length raw)])) ->
  map (take w) (Arr.split_from raw st (others ++ [Z.of_nat (length raw)]))
  = map (fun s => take w (drop (Z.to_nat s) raw)) (st :: others)
  /\ Forall (fun s => (Z.to_nat s + w <= length raw)%nat) (st :: others).
Proof.
  revert st. induction others as [| o others IH]; intros st Hst Hsorted Hw.
  - simpl in *. apply Forall_cons in Hw as [Hw _].
    apply StronglySorted_cons in Hsorted as [Hlt _].
    apply Forall_cons in Hlt as [Hlt _].
    rewrite <- (Z2Nat.id st) in Hw |- * at 1 by lia.
    rewrite slice_between in Hw |- *.
    rewrite length_take, length_drop in Hw. rewrite take_take.
    split; [do 2 f_equal; lia | repeat constructor; lia].
  - cbn [app Arr.split_from map] in *. apply Forall_cons in Hw as [Hw Hrest].
    apply StronglySorted_cons in Hsorted as [Hlt Hsorted].
    apply Forall_cons in Hlt as [Hlt Hlt'].
    destruct (IH o ltac:(lia) Hsorted Hrest) as [IHmap IHfit].
    assert (o <= Z.of_nat (length raw)) as Ho.
    { pose proof Hsorted as [Hlo _]%StronglySorted_cons.
      rewrite Forall_forall in Hlo.
      specialize (Hlo (Z.of_nat (length raw))
                    ltac:(apply elem_of_app; right; by left)). lia. }
    rewrite <- (Z2Nat.id st) in Hw |- * at 1 by lia.
    rewrite <- (Z2Nat.id o) in Hw |- * at 1 by lia.
    rewrite slice_between in Hw |- *.
    rewrite length_take, length_drop in Hw. rewrite take_take.
    split.
    + f_equal; [f_equal; lia | exact IHmap].
    + constructor; [lia | exact IHfit].
Qed.

(** [parse_raw] on division points that are increasing and inside the
    signal. *)
Lemma parse_sorted raw (pos : list Z) :
  pos <> [] ->
  StronglySorted Z.lt pos ->
  Forall (fun s => 0 <= s < Z.of_nat (length raw)) pos ->
  exists w : nat,
    (1 <= w)%nat /\
    Arr.vstack
      (trim_equal_len
         (List.filter (fun chunk => 1 <=? Z.of_nat (length chunk))
            (Np.slice (Arr.split raw pos) (Some 1) None)))
    = ok (map (fun s => take w (drop (Z.to_nat s) raw)) pos)
    /\ Forall (fun s => (Z.to_nat s + w <= length raw)%nat) pos.
Proof.
  intros Hne Hsorted Hrange.
  destruct pos as [| first others]; [done |].
  apply Forall_cons in Hrange as [Hfirst Hothers].
  unfold Arr.split. simpl Arr.split_from.
  rewrite (slice_from _ 1). simpl drop. rewrite drop_0.
  set (chunks := Arr.split_from raw first (others ++ [Z.of_nat (length raw)])).
  assert (StronglySorted Z.lt
            (first :: others ++ [Z.of_nat (length raw)])) as Hsorted'.
  { rewrite app_comm_cons. apply StronglySorted_app. split_and!.
    - intros x1 x2 Hx1 ->%list_elem_of_singleton.
      apply elem_of_cons in Hx1 as [-> | Hx1]; [lia |].
      rewrite Forall_forall in Hothers. apply Hothers in Hx1. lia.
    - done.
    - repeat constructor. }
  assert (Forall (fun chunk => (1 <= length chunk)%nat) chunks) as Hchunks.
  { apply split_from_nonempty; [lia | done |].
    apply Forall_app. split; [| by repeat constructor].
    eapply Forall_impl; [exact Hothers |]. simpl. lia. }
  assert (chunks <> []) as Hne'.
  { unfold chunks. by destruct others. }
  rewrite filter_all.
  2: { eapply Forall_impl; [exact Hchunks |]. simpl. intros c Hc.
       apply Z.leb_le. lia. }
  rewrite vstack_trimmed by done. rewrite trim_equal_len_take.
  set (w := Arr.min_len (map length chunks)).
  assert (Forall (fun chunk => (w <= length chunk)%nat) chunks) as Hw.
  { apply Forall_forall. intros c Hc. apply min_len_le.
    by apply list_elem_of_fmap_2. }
  destruct (split_from_starts raw w others first ltac:(lia) Hsorted' Hw)
    as [Hmap Hfit].
  exists w. split_and!.
  - apply min_len_lower; [by destruct chunks |].
    apply Forall_fmap. exact Hchunks.
  - by rewrite <- Hmap.
  - exact Hfit.
Qed.

End Alignment.

(** X7. When the onsets are strictly increasing and, moved back by
    [samples_before_stim], all lie inside the signal, [parse_raw] with
    [min_len_chunk = 1] returns one row per onset (per second onset under
    [skip_one], starting with the first): row [j] holds the [w] samples
    that start [samples_before_stim] before onset [j], [w >= 1] being the
    common row length, and every such window lies inside the signal. *)
Theorem parse_raw_aligned {A} (raw : list A) (onsets : list Z)
    (samples_before_stim : Z) (skip_one : bool) :
  onsets <> [] ->
  StronglySorted Z.lt onsets ->
  Forall (fun i => 0 <= i - samples_before_stim < Z.of_nat (length raw))
    onsets ->
  exists w : nat,
    (1 <= w)%nat /\
    parse_raw raw onsets samples_before_stim skip_one 1
    = ok (map (fun o =>
                 take w (drop (Z.to_nat (o - samples_before_stim)) raw))
            (if skip_one then Np.every_other onsets else onsets)) /\
    Forall (fun o =>
              (Z.to_nat (o - samples_before_stim) + w <= length raw)%nat)
      (if skip_one then Np.every_other onsets else onsets).
Proof.
  intros Hne Hsorted Hrange.
  set (kept := if skip_one then Np.every_other onsets else onsets).
  assert (adjusted_onsets onsets samples_before_stim skip_one
          = map (fun i => i - samples_before_stim) kept) as Hadj.
  { unfold adjusted_onsets, kept.
    destruct onsets as [| i0 idxs]; [done |]. simpl map.
    apply Forall_cons in Hrange as [Hi0 _].
    destruct (Z.ltb_spec (i0 - samples_before_stim) 0) as [? | _]; [lia |].
    destruct skip_one; [| done].
    by rewrite <- (every_other_fmap _ (i0 :: idxs)). }
  assert (kept <> []) as Hkept.
  { unfold kept. destruct skip_one; [by apply every_other_nonempty | done]. }
  assert (StronglySorted Z.lt kept) as Hksorted.
  { unfold kept. destruct skip_one; [by apply every_other_sorted | done]. }
  assert (Forall (fun i => 0 <= i - samples_before_stim
                           < Z.of_nat (length raw)) kept) as Hkrange.
  { unfold kept. destruct skip_one; [| done].
    apply Forall_forall. intros i Hi%every_other_subseteq.
    rewrite Forall_forall in Hrange. by apply Hrange. }
  rewrite parse_raw_unfold, Hadj by done.
  destruct (parse_sorted raw (map (fun i => i - samples_before_stim) kept))
    as (w & Hw & Hok & Hfit).
  - by destruct kept.
  - eapply (StronglySorted_fmap _ Z.lt Z.lt); [| exact Hksorted].
    intros x y. lia.
  - by apply Forall_fmap.
  - exists w. split; [done |]. rewrite Hok, map_map. split; [done |].
    by apply Forall_fmap in Hfit.
Qed.

Lemma parse_raw_aligned_witness :
  exists w : nat,
    (1 <= w)%nat /\
    parse_raw [10; 20; 30; 40; 50; 60; 70] [2; 4; 5] 1 true 1
    = ok (map (fun o => take w (drop (Z.to_nat (o - 1))
                                  [10; 20; 30; 40; 50; 60; 70]))
            [2; 5]).
Proof.
  destruct (parse_raw_aligned [10; 20; 30; 40; 50; 60; 70] [2; 4; 5] 1 true)
    as (w & Hw & Hok & _).
  - discriminate.
  - repeat constructor; lia.
  - repeat constructor; simpl; lia.
  - exists w. split; [exact Hw | exact Hok].
Defined.

(** ** Shape and edge cases of the averages by amplitude *)

Section AverageShape.

Lemma length_mean_axis0 (m : matrix) : length (mean_axis0 m) = ncols m.
Proof. unfold mean_axis0. by rewrite length_map, length_seq. Qed.

Lemma length_average_block (array : matrix) (start stop : Z) :
  length (average_block array start stop) = ncols array.
Proof. unfold average_block. by rewrite length_mean_axis0. Qed.

(** The mean over no rows at all is NaN in every column. *)
Lemma mean_axis0_no_rows (c : nat) :
  mean_axis0 {| ncols := c; rows := [] |} = replicate c NaN.
Proof.
  unfold mean_axis0. simpl. generalize 0%nat.
  induction c as [| c IH]; intros s; simpl; [done |].
  f_equal. apply IH.
Qed.

Lemma map_const_seq {B} (b : B) (s n : nat) :
  map (fun _ : nat => b) (seq s n) = replicate n b.
Proof.
  revert s. induction n as [| n IH]; intros s; [done |].
  simpl. f_equal. apply IH.
Qed.

Lemma get_average_amplitudes_blocks {A} (parsed_raw : matrix)
    (tested_amplitudes : list A) (pulses_number : option Z) :
  (1 < length tested_amplitudes)%nat ->
  truthy pulses_number = false ->
  get_average_amplitudes parsed_raw tested_amplitudes pulses_number
  = ok (map (fun i : nat =>
               mean_axis0
                 (row_block parsed_raw
                    (i * (length (rows parsed_raw)
                          / length tested_amplitudes))
                    (length (rows parsed_raw) / length tested_amplitudes)))
          (seq 0 (length tested_amplitudes))).
Proof.
  intros Hmany Hnot. unfold get_average_amplitudes.
  destruct (decide _) as [Heq | _]; [lia |].
  rewrite Hnot. rewrite int_div_floor by lia. simpl. f_equal.
  apply map_ext. intros i. unfold average_block.
  by rewrite row_slice_block.
Qed.

End AverageShape.

(** X8. Whenever [get_average_amplitudes] returns, it returns one row per
    tested amplitude, each as wide as the parsed matrix; it fails only
    with a [ZeroDivisionError], exactly when no amplitude is listed and
    [pulses_number] is absent or 0. *)
Theorem get_average_amplitudes_shape {A} (parsed_raw : matrix)
    (tested_amplitudes : list A) (pulses_number : option Z) :
  (forall out : list (list float),
     get_average_amplitudes parsed_raw tested_amplitudes pulses_number
     = ok out ->
     length out = length tested_amplitudes /\
     Forall (fun row => length row = ncols parsed_raw) out) /\
  (forall e : exn,
     get_average_amplitudes parsed_raw tested_amplitudes pulses_number
     = inl e <->
     e = ZeroDivisionError /\ tested_amplitudes = []
     /\ truthy pulses_number = false).
Proof.
  unfold get_average_amplitudes.
  destruct (decide (length tested_amplitudes = 1%nat)) as [Hone | Hne].
  { split.
    - intros out [= <-]. rewrite Hone. split; [done |].
      repeat constructor. apply length_average_block.
    - intros e. split; [done |]. intros (_ & -> & _). done. }
  destruct (truthy pulses_number) eqn:Hgiven.
  { cbn [bind ok]. split.
    - intros out [= <-]. rewrite length_map, length_seq. split; [done |].
      apply Forall_forall. intros row (i & -> & _)%list_elem_of_fmap_1.
      apply length_average_block.
    - intros e. split; [done |]. by intros (_ & _ & ?). }
  unfold int_div.
  destruct (decide (length tested_amplitudes = 0%nat)) as [Hzero | Hpos].
  { cbn [bind raise]. split; [done |]. intros e. split.
    - intros [= <-]. split; [done |]. split; [| done].
      by destruct tested_amplitudes.
    - by intros (-> & _ & _). }
  cbn [bind ok]. split.
  - intros out [= <-]. rewrite length_map, length_seq. split; [done |].
    apply Forall_forall. intros row (i & -> & _)%list_elem_of_fmap_1.
    apply length_average_block.
  - intros e. split; [done |]. intros (_ & -> & _). done.
Qed.

Lemma get_average_amplitudes_shape_witness :
  length [mean_axis0 {| ncols := 1; rows := [[Float.of_Z 1]] |};
          mean_axis0 {| ncols := 1; rows := [[Float.of_Z 3]] |}] = 2%nat
  /\ Forall (fun row => length row = 1%nat)
       [mean_axis0 {| ncols := 1; rows := [[Float.of_Z 1]] |};
        mean_axis0 {| ncols := 1; rows := [[Float.of_Z 3]] |}].
Proof.
  apply (proj1 (get_average_amplitudes_shape
                  {| ncols := 1;
                     rows := [[Float.of_Z 1]; [Float.of_Z 3];
                              [Float.of_Z 5]] |} [tt; tt] None)).
  reflexivity.
Defined.

(** X9. With several amplitudes, no [pulses_number] and fewer rows than
    amplitudes, the inferred number of pulses is 0 and every average is a
    row of NaN: the call does not fail. *)
Theorem get_average_amplitudes_too_few_rows {A} (parsed_raw : matrix)
    (tested_amplitudes : list A) (pulses_number : option Z) :
  (1 < length tested_amplitudes)%nat ->
  truthy pulses_number = false ->
  (length (rows parsed_raw) < length tested_amplitudes)%nat ->
  get_average_amplitudes parsed_raw tested_amplitudes pulses_number
  = ok (replicate (length tested_amplitudes)
          (replicate (ncols parsed_raw) NaN)).
Proof.
  intros Hmany Hnot Hfew. rewrite get_average_amplitudes_blocks by done.
  rewrite Nat.div_small by done. f_equal.
  rewrite <- (map_const_seq _ 0).
  apply map_ext. intros i.
  unfold row_block. rewrite take_0. apply mean_axis0_no_rows.
Qed.

Lemma get_average_amplitudes_too_few_rows_witness :
  get_average_amplitudes
    {| ncols := 2; rows := [[Float.of_Z 1; Float.of_Z 2]] |}
    [tt; tt; tt] None
  = ok (replicate 3 (replicate 2 NaN)).
Proof.
  apply (get_average_amplitudes_too_few_rows
           {| ncols := 2; rows := [[Float.of_Z 1; Float.of_Z 2]] |}
           [tt; tt; tt] None).
  - simpl. lia.
  - reflexivity.
  - simpl. lia.
Defined.

(** ** Index search on sorted data and exact hits *)

Section SortedSearch.
Local Open Scope Qc_scope.

Lemma Qcabs_below (y p : Qc) : y < p -> Float.Qcabs (y - p) = p - y.
Proof.
  intros Hy. unfold Float.Qcabs.
  destruct (decide (y - p < 0)) as [_ | Hge]; [ring |].
  exfalso. apply Hge. clear Hge. qc_to_q. lra.
Qed.

Lemma Qcabs_zero (p : Qc) : Float.Qcabs (p - p) = 0.
Proof.
  unfold Float.Qcabs.
  destruct (decide (p - p < 0)) as [Hlt | _]; [| ring].
  exfalso. clear -Hlt. qc_to_q. lra.
Qed.

Lemma Qcabs_nonpos (x y : Qc) : Float.Qcabs (x - y) <= 0 -> x = y.
Proof.
  unfold Float.Qcabs. intros Hle. apply Qc_is_canon.
  destruct (decide (x - y < 0)) as [Hlt | Hge].
  - qc_to_q. lra.
  - apply Qcnot_lt_le in Hge. qc_to_q. lra.
Qed.

Lemma sorted_lookup {B} (R : B -> B -> Prop) (l : list B) (i j : nat)
    (x y : B) :
  StronglySorted R l -> (i < j)%nat ->
  l !! i = Some x -> l !! j = Some y -> R x y.
Proof.
  intros Hl. revert i j. induction Hl as [| z l Hl IH Hz]; intros i j Hij Hi Hj.
  - by rewrite lookup_nil in Hi.
  - destruct j as [| j]; [lia |]. simpl in Hj. destruct i as [| i].
    + injection Hi as <-. rewrite Forall_forall in Hz. apply Hz.
      by eapply list_elem_of_lookup_2.
    + simpl in Hi. apply (IH i j); [lia | done | done].
Qed.

(** On increasing data with a value below the point the loop ends on the
    last such value: the values below the point are those up to the
    result. *)
Lemma closest_smaller_sorted (qs : list Qc) (p : Qc) :
  StronglySorted Qclt qs ->
  (exists (j : nat) (q : Qc), qs !! j = Some q /\ q < p) ->
  forall (j : nat) (q : Qc),
    qs !! j = Some q ->
    (q < p <-> (j <= find_closest_smaller_index (map Fin qs) (Fin p))%nat).
Proof.
  intros Hsorted (j0 & q0 & Hj0 & Hq0) j q Hj.
  unfold find_closest_smaller_index.
  destruct (closest_smaller_loop_spec p (map Fin qs) None 0 0)
    as [[_ Hnone] | (k & x & -> & Hk & Hx & _ & Hmin & _)].
  { by left. }
  { specialize (Hnone j0 q0). rewrite list_lookup_fmap, Hj0 in Hnone.
    by specialize (Hnone eq_refl Hq0). }
  rewrite list_lookup_fmap in Hk.
  destruct (qs !! k) as [x' |] eqn:Hk'; [| done]. injection Hk as ->.
  simpl. split.
  - intros Hq. destruct (Nat.le_gt_cases j k) as [Hle | Hgt]; [done |].
    exfalso. pose proof (sorted_lookup _ _ _ _ _ _ Hsorted Hgt Hk' Hj) as Hxq.
    specialize (Hmin j q). rewrite list_lookup_fmap, Hj in Hmin.
    specialize (Hmin eq_refl Hq).
    rewrite !Qcabs_below in Hmin by done.
    clear -Hmin Hxq. qc_to_q. lra.
  - intros Hle. destruct (decide (j = k)) as [-> | Hne].
    + rewrite Hk' in Hj. by injection Hj as <-.
    + assert (j < k)%nat as Hlt by lia.
      pose proof (sorted_lookup _ _ _ _ _ _ Hsorted Hlt Hj Hk') as Hqx.
      by eapply Qclt_trans.
Qed.

End SortedSearch.

(** X10. On strictly increasing NaN-free data holding a value below the
    point, [find_closest_smaller_index] returns the index of the last such
    value: a value is below the point exactly when its index is at most
    the result. *)
Theorem find_closest_smaller_index_sorted (qs : list Qc) (p : Qc) :
  StronglySorted Qclt qs ->
  (exists (j : nat) (q : Qc), qs !! j = Some q /\ (q < p)%Qc) ->
  forall (j : nat) (q : Qc),
    qs !! j = Some q ->
    ((q < p)%Qc
     <-> (j <= find_closest_smaller_index (map Fin qs) (Fin p))%nat).
Proof. apply closest_smaller_sorted. Qed.

Lemma find_closest_smaller_index_sorted_witness :
  (Qc_of_Z 40 < Qc_of_Z 45)%Qc
  <-> (2 <= find_closest_smaller_index
              (map Fin [Qc_of_Z 10; Qc_of_Z 20; Qc_of_Z 40; Qc_of_Z 80])
              (Fin (Qc_of_Z 45)))%nat.
Proof.
  apply (find_closest_smaller_index_sorted
           [Qc_of_Z 10; Qc_of_Z 20; Qc_of_Z 40; Qc_of_Z 80] (Qc_of_Z 45)).
  - repeat constructor.
  - exists 0%nat, (Qc_of_Z 10). split; [reflexivity | reflexivity].
  - reflexivity.
Defined.

(** X11. On strictly increasing NaN-free data the result of
    [find_closest_smaller_index] grows with the point, so the two band
    limits [get_fast_foofed_specgram] derives from [frange] come in
    order. *)
Theorem find_closest_smaller_index_monotone (qs : list Qc) (p1 p2 : Qc) :
  StronglySorted Qclt qs -> (p1 <= p2)%Qc ->
  (find_closest_smaller_index (map Fin qs) (Fin p1)
   <= find_closest_smaller_index (map Fin qs) (Fin p2))%nat.
Proof.
  intros Hsorted Hle.
  unfold find_closest_smaller_index at 1.
  destruct (closest_smaller_loop_spec p1 (map Fin qs) None 0 0)
    as [[-> _] | (k & x & -> & Hk & Hx & _)]; [by left | lia |].
  simpl. rewrite list_lookup_fmap in Hk.
  destruct (qs !! k) as [x' |] eqn:Hk'; [| done]. injection Hk as ->.
  assert (x < p2)%Qc as Hx2 by (by eapply Qclt_le_trans).
  apply (closest_smaller_sorted qs p2 Hsorted) with (q := x); [| done | done].
  by exists k, x.
Qed.

Lemma find_closest_smaller_index_monotone_witness :
  (find_closest_smaller_index
     (map Fin [Qc_of_Z 10; Qc_of_Z 20; Qc_of_Z 40; Qc_of_Z 80])
     (Fin (Qc_of_Z 15))
   <= find_closest_smaller_index
        (map Fin [Qc_of_Z 10; Qc_of_Z 20; Qc_of_Z 40; Qc_of_Z 80])
        (Fin (Qc_of_Z 45)))%nat.
Proof.
  apply (find_closest_smaller_index_monotone
           [Qc_of_Z 10; Qc_of_Z 20; Qc_of_Z 40; Qc_of_Z 80]
           (Qc_of_Z 15) (Qc_of_Z 45)).
  - repeat constructor.
  - discriminate.
Defined.

(** X12. When the point itself occurs in NaN-free data,
    [find_closest_index] returns the position of its first occurrence. *)
Theorem find_closest_index_exact (data : list float) (p : Qc) :
  NaN ∉ data -> Fin p ∈ data ->
  exists i : nat,
    find_closest_index data (Fin p) = ok i /\
    data !! i = Some (Fin p) /\
    forall j : nat, (j < i)%nat -> data !! j <> Some (Fin p).
Proof.
  intros Hfree Hin. destruct (nan_free_Fin data Hfree) as (qs & ->).
  apply list_elem_of_fmap in Hin as (p' & [= <-] & Hin).
  apply list_elem_of_lookup_1 in Hin as (j0 & Hj0).
  destruct (find_closest_index_Fin qs p ltac:(by destruct qs))
    as (i & q & Hi & Hq & Hmin & Hfirst).
  assert (q = p) as ->.
  { apply Qcabs_nonpos. rewrite <- (Qcabs_zero p). by eapply Hmin. }
  exists i. split_and!.
  - done.
  - by rewrite list_lookup_fmap, Hq.
  - intros j Hj Hjp. rewrite list_lookup_fmap in Hjp.
    destruct (qs !! j) as [qj |] eqn:Hqj; [| done]. injection Hjp as ->.
    pose proof (Hfirst j p Hj Hqj) as Hlt.
    by apply Qclt_not_eq in Hlt.
Qed.

Lemma find_closest_index_exact_witness :
  exists i : nat,
    find_closest_index [Float.of_Z 3; Float.of_Z 8; Float.of_Z 8]
      (Fin (Qc_of_Z 8)) = ok i /\
    [Float.of_Z 3; Float.of_Z 8; Float.of_Z 8] !! i = Some (Fin (Qc_of_Z 8)).
Proof.
  destruct (find_closest_index_exact
              [Float.of_Z 3; Float.of_Z 8; Float.of_Z 8] (Qc_of_Z 8))
    as (i & Hi & Hat & _).
  - intros [? | [? | [? | ?%elem_of_nil]%elem_of_cons]%elem_of_cons]%elem_of_cons;
      done.
  - right. left.
  - exists i. split; [exact Hi | exact Hat].
Defined.

(** ** The two levels of the binarised signal *)

Section Levels.
Local Open Scope Qc_scope.

Lemma sum_NaN (l : list float) : NaN ∈ l -> Float.sum l = NaN.
Proof.
  induction l as [| x l IH]; [by intros ?%elem_of_nil |].
  change (Float.sum (x :: l)) with (Float.add x (Float.sum l)).
  intros [<- | Hin]%elem_of_cons; [done |].
  rewrite IH by done. by destruct x.
Qed.

Lemma mean_NaN (l : list float) : NaN ∈ l -> Np.mean l = NaN.
Proof. intros Hin. unfold Np.mean. by rewrite sum_NaN. Qed.

Lemma Qc_of_nat_S (k : nat) :
  Qc_of_Z (Z.of_nat (S k)) = Qc_of_Z (Z.of_nat k) + 1.
Proof. by rewrite Nat2Z.inj_succ, <- Z.add_1_r, Z2Qc_inj_add, Z2Qc_inj_1. Qed.






End Levels.

(** X13. A single NaN sample makes the mean NaN, no sample compares below
    it, and [simply_mean_data_binarize] returns 1 everywhere. *)
Theorem simply_mean_data_binarize_nan (sync_ch : list float) :
  NaN ∈ sync_ch ->
  simply_mean_data_binarize sync_ch = replicate (length sync_ch) 1.
Proof.
  intros Hnan. unfold simply_mean_data_binarize. rewrite mean_NaN by done.
  clear Hnan. induction sync_ch as [| x l IH]; [done |].
  simpl. rewrite IH. by destruct x.
Qed.

Lemma simply_mean_data_binarize_nan_witness :
  simply_mean_data_binarize [Float.of_Z 0; NaN; Float.of_Z 5] = [1; 1; 1].
Proof.
  apply (simply_mean_data_binarize_nan [Float.of_Z 0; NaN; Float.of_Z 5]).
  right. left.
Defined.



(** ** The two roundings of a time window *)

Section Bracket.
Local Open Scope Qc_scope.





End Bracket.



(** ** Median distance between points *)

Section MedianDistance.
Local Open Scope Qc_scope.

Lemma Qcabs_nonneg (x : Qc) : 0 <= Float.Qcabs x.
Proof.
  unfold Float.Qcabs. destruct (decide (x < 0)) as [Hlt | Hge].
  - qc_to_q. lra.
  - by apply Qcnot_lt_le.
Qed.

Lemma Qcabs_opp (x : Qc) : Float.Qcabs (- x) = Float.Qcabs x.
Proof.
  unfold Float.Qcabs.
  destruct (decide (- x < 0)) as [Hlt | Hge],
           (decide (x < 0)) as [Hlt' | Hge'].
  - exfalso. clear -Hlt Hlt'. qc_to_q. lra.
  - ring.
  - done.
  - apply Qcnot_lt_le in Hge, Hge'. apply Qc_is_canon. qc_to_q. lra.
Qed.

Lemma existsb_nan_Fin (qs : list Qc) :
  existsb Float.is_nan (map Fin qs) = false.
Proof. apply nan_free_existsb. by intros (q & ? & _)%list_elem_of_fmap_1. Qed.

Lemma finite_part_Fin (qs : list Qc) : map finite_part (map Fin qs) = qs.
Proof. rewrite map_map. simpl. apply map_id. Qed.

Lemma two_nonzero : Qc_of_Z 2 <> 0.
Proof. rewrite <- Z2Qc_inj_0. by intros ?%Z2Qc_inj. Qed.

(** The median of a non-empty array of numbers is a number. *)
Lemma np_median_Fin (qs : list Qc) :
  qs <> [] -> exists v : Qc, np_median (map Fin qs) = Fin v.
Proof.
  intros Hne. unfold np_median.
  rewrite existsb_nan_Fin, finite_part_Fin.
  assert (length (merge_sort Qcle qs) <> 0%nat) as Hlen.
  { rewrite merge_sort_Permutation. by destruct qs. }
  destruct (Nat.eqb_spec (length (merge_sort Qcle qs)) 0); [done |].
  destruct (Nat.even _); [| by eexists].
  unfold Float.of_Z. simpl.
  destruct (decide (Qc_of_Z 2 = 0)) as [Hzero | _]; [| by eexists].
  by destruct two_nonzero.
Qed.

(** The median of a constant array is its value. *)
Lemma np_median_replicate (k : nat) (v : Qc) :
  (0 < k)%nat -> np_median (replicate k (Fin v)) = Fin v.
Proof.
  intros Hk. unfold np_median.
  assert (replicate k (Fin v) = map Fin (replicate k v)) as ->
    by (by rewrite fmap_replicate).
  rewrite existsb_nan_Fin, finite_part_Fin.
  assert (merge_sort Qcle (replicate k v) = replicate k v) as ->.
  { symmetry. apply replicate_Permutation.
    by rewrite merge_sort_Permutation. }
  rewrite length_replicate.
  destruct (Nat.eqb_spec k 0); [lia |].
  assert (k / 2 < k)%nat as Hhalf by (apply Nat.div_lt; lia).
  rewrite !lookup_replicate_2 by lia. simpl.
  destruct (Nat.even k); [| done].
  unfold Float.of_Z. simpl.
  destruct (decide (Qc_of_Z 2 = 0)) as [Hzero | _];
    [by destruct two_nonzero |].
  f_equal. rewrite Z2Qc_inj_2. field. discriminate.
Qed.

(** The distances of NaN-free points are numbers. *)
Lemma distances_Fin_points (qs : list Qc) :
  map (fun i : nat =>
         Float.sub (default NaN (map Fin qs !! i))
                   (default NaN (map Fin qs !! (i + 1)%nat)))
      (seq 0 (length (map Fin qs) - 1))
  = map Fin
      (map (fun i : nat =>
              default 0 (qs !! i) - default 0 (qs !! (i + 1)%nat))
         (seq 0 (length qs - 1))).
Proof.
  rewrite length_map, map_map. apply map_ext_in.
  intros i [_ Hi]%in_seq.
  rewrite !list_lookup_fmap.
  destruct (lookup_lt_is_Some_2 qs i ltac:(lia)) as [x ->].
  destruct (lookup_lt_is_Some_2 qs (i + 1) ltac:(lia)) as [y ->].
  done.
Qed.

End MedianDistance.

(** X16. For NaN-free points [get_median_distance] is NaN exactly when
    there are fewer than two of them, so that no distance exists;
    otherwise it is a number that is not negative. *)
Theorem get_median_distance_defined (a : list float) :
  NaN ∉ a ->
  (get_median_distance a = NaN <-> (length a < 2)%nat) /\
  ((2 <= length a)%nat ->
   exists v : Qc, get_median_distance a = Fin v /\ (0 <= v)%Qc).
Proof.
  intros Hfree. destruct (nan_free_Fin a Hfree) as (qs & ->).
  unfold get_median_distance. rewrite distances_Fin_points.
  rewrite length_map.
  destruct (Nat.le_gt_cases 2 (length qs)) as [Hmany | Hfew].
  - destruct (np_median_Fin
                (map (fun i : nat =>
                        (default 0 (qs !! i)
                         - default 0 (qs !! (i + 1)%nat))%Qc)
                   (seq 0 (length qs - 1)))) as (v & ->).
    { intros Hnil. apply (f_equal length) in Hnil.
      rewrite length_map, length_seq in Hnil. simpl in Hnil. lia. }
    simpl. split.
    + split; [done | lia].
    + intros _. eexists. split; [done | apply Qcabs_nonneg].
  - replace (length qs - 1)%nat with 0%nat by lia. simpl.
    split; [done | lia].
Qed.

Lemma get_median_distance_defined_witness :
  exists v : Qc,
    get_median_distance [Float.of_Z 1; Float.of_Z 4; Float.of_Z 9] = Fin v
    /\ (0 <= v)%Qc.
Proof.
  apply (get_median_distance_defined
           [Float.of_Z 1; Float.of_Z 4; Float.of_Z 9]).
  - intros [? | [? | [? | ?%elem_of_nil]%elem_of_cons]%elem_of_cons]%elem_of_cons;
      done.
  - simpl. lia.
Defined.

(** X17. For at least two equally spaced points, [step] apart, the median
    distance is the absolute value of the step, whatever its sign. *)
Theorem get_median_distance_equally_spaced (start step : Qc) (n : nat) :
  (2 <= n)%nat ->
  get_median_distance
    (map (fun i : nat => Fin (start + Qc_of_Z (Z.of_nat i) * step)%Qc)
       (seq 0 n))
  = Fin (Float.Qcabs step).
Proof.
  intros Hn. unfold get_median_distance.
  rewrite length_map, length_seq.
  assert (map (fun i : nat =>
                 Float.sub
                   (default NaN
                      (map (fun i : nat =>
                              Fin (start + Qc_of_Z (Z.of_nat i) * step)%Qc)
                         (seq 0 n) !! i))
                   (default NaN
                      (map (fun i : nat =>
                              Fin (start + Qc_of_Z (Z.of_nat i) * step)%Qc)
                         (seq 0 n) !! (i + 1)%nat)))
            (seq 0 (n - 1))
          = replicate (n - 1) (Fin (- step)%Qc)) as ->.
  { rewrite <- (map_const_seq _ 0). apply map_ext_in.
    intros i [_ Hi]%in_seq.
    rewrite !list_lookup_fmap, !lookup_seq_lt by lia. simpl. f_equal.
    rewrite (Nat.add_comm i 1). change (1 + i)%nat with (S i).
    rewrite Qc_of_nat_S. ring. }
  rewrite np_median_replicate by lia. simpl. by rewrite Qcabs_opp.
Qed.

Lemma get_median_distance_equally_spaced_witness :
  get_median_distance
    (map (fun i : nat => Fin (Qc_of_Z 10 + Qc_of_Z (Z.of_nat i) * Qc_of_Z 3)%Qc)
       (seq 0 4))
  = Fin (Float.Qcabs (Qc_of_Z 3)).
Proof.
  apply (get_median_distance_equally_spaced (Qc_of_Z 10) (Qc_of_Z 3) 4).
  lia.
Defined.

(** ** Reading TDT blocks *)

Section TdtImport.

Lemma slice_drop_last {A} (l : list A) :
  Np.slice l (Some 0) (Some (-1)) = take (length l - 1) l.
Proof.
  unfold Np.slice. simpl. unfold Np.slice_bound. simpl.
  replace (Z.to_nat (Z.min 0 (Z.of_nat (length l)))) with 0%nat by lia.
  rewrite drop_0. f_equal. lia.
Qed.

Lemma import_tdt_channel_data_found (blk : Tdt.block) (s : Tdt.stream)
    (t1 t2 : Qc) :
  Tdt.LFP1 blk = Some s
  \/ (Tdt.LFP1 blk = None /\ Tdt.EOG1 blk = Some s)
  \/ (Tdt.LFP1 blk = None /\ Tdt.EOG1 blk = None /\ Tdt.NPr1 blk = Some s) ->
  Tdt.import_tdt_channel_data blk t1 t2
  = inr (Tdt.fs s,
         map (fun channel =>
                Np.slice channel
                  (Some (if decide (t1 = 0%Qc) then 0
                         else time_to_sample t1 (Tdt.fs s) true false))
                  (Some (if decide (t2 = Qc_of_Z (-1)) then -1
                         else time_to_sample t2 (Tdt.fs s) false true)))
           (Tdt.data s)).
Proof.
  unfold Tdt.import_tdt_channel_data.
  intros [-> | [[-> ->] | (-> & -> & ->)]]; done.
Qed.

End TdtImport.

(** X18. [import_tdt_channel_data] reads stream [LFP1], else [EOG1], else
    [NPr1], and raises the [AttributeError] exactly when all three are
    missing.  Called with the default [t1 = 0] and [t2 = -1] it returns
    every channel without its last sample. *)
Theorem import_tdt_channel_data_defaults (blk : Tdt.block) :
  (forall s : Tdt.stream,
     Tdt.LFP1 blk = Some s
     \/ (Tdt.LFP1 blk = None /\ Tdt.EOG1 blk = Some s)
     \/ (Tdt.LFP1 blk = None /\ Tdt.EOG1 blk = None
         /\ Tdt.NPr1 blk = Some s) ->
     Tdt.import_tdt_channel_data blk 0%Qc (Qc_of_Z (-1))
     = inr (Tdt.fs s,
            map (fun channel => take (length channel - 1) channel)
              (Tdt.data s))) /\
  (forall t1 t2 : Qc,
     Tdt.import_tdt_channel_data blk t1 t2 = inl Tdt.AttributeError
     <-> Tdt.LFP1 blk = None /\ Tdt.EOG1 blk = None
         /\ Tdt.NPr1 blk = None).
Proof.
  split.
  - intros s Hs. rewrite (import_tdt_channel_data_found blk s) by done.
    f_equal. f_equal. apply map_ext. intros channel.
    destruct (decide (0%Qc = 0%Qc)) as [_ | Hne]; [| done].
    destruct (decide (Qc_of_Z (-1) = Qc_of_Z (-1))) as [_ | Hne]; [| done].
    apply slice_drop_last.
  - intros t1 t2. unfold Tdt.import_tdt_channel_data.
    destruct (Tdt.LFP1 blk) as [s |]; [split; [done | by intros [? _]] |].
    destruct (Tdt.EOG1 blk) as [s |];
      [split; [done | by intros (_ & ? & _)] |].
    destruct (Tdt.NPr1 blk) as [s |];
      [split; [done | by intros (_ & _ & ?)] |].
    done.
Qed.

Lemma import_tdt_channel_data_defaults_witness :
  Tdt.import_tdt_channel_data
    {| Tdt.LFP1 := None;
       Tdt.EOG1 := Some {| Tdt.data := [[Float.of_Z 1; Float.of_Z 2;
                                         Float.of_Z 3]];
                           Tdt.fs := Q2Qc 2 |};
       Tdt.NPr1 := None; Tdt.Wav1 := None |} 0%Qc (Qc_of_Z (-1))
  = inr (Q2Qc 2, [[Float.of_Z 1; Float.of_Z 2]]).
Proof.
  apply (proj1 (import_tdt_channel_data_defaults
                  {| Tdt.LFP1 := None;
                     Tdt.EOG1 := Some {| Tdt.data := [[Float.of_Z 1;
                                                       Float.of_Z 2;
                                                       Float.of_Z 3]];
                                         Tdt.fs := Q2Qc 2 |};
                     Tdt.NPr1 := None; Tdt.Wav1 := None |})
           {| Tdt.data := [[Float.of_Z 1; Float.of_Z 2; Float.of_Z 3]];
              Tdt.fs := Q2Qc 2 |}).
  right. left. split; reflexivity.
Defined.



(** X20. [import_tdt_stimulation_data] only assigns the sample bounds
    when [t1] and [t2] differ from their defaults: with [t1 = 0] or
    [t2 = -1] it never returns data, and when both streams it reads are
    there it raises an [UnboundLocalError]. *)
Theorem import_tdt_stimulation_data_defaults (blk : Tdt.block)
    (t1 t2 : Qc) :
  t1 = 0%Qc \/ t2 = Qc_of_Z (-1) ->
  (forall stim_data : list float,
     Tdt.import_tdt_stimulation_data blk t1 t2 <> inr stim_data) /\
  (forall (wav : list float) (lfp : Tdt.stream),
     Tdt.Wav1 blk = Some wav -> Tdt.LFP1 blk = Some lfp ->
     exists name : string,
       Tdt.import_tdt_stimulation_data blk t1 t2
       = inl (Tdt.UnboundLocalError name)).
Proof.
  intros Hdefault. unfold Tdt.import_tdt_stimulation_data. split.
  - intros stim_data.
    destruct (Tdt.Wav1 blk), (Tdt.LFP1 blk); try done.
    destruct (decide (t1 = 0%Qc)); [done |].
    destruct (decide (t2 = Qc_of_Z (-1))); [done |].
    by destruct Hdefault.
  - intros wav lfp -> ->.
    destruct (decide (t1 = 0%Qc)); [by eexists |].
    destruct (decide (t2 = Qc_of_Z (-1))); [by eexists |].
    by destruct Hdefault.
Qed.

Lemma import_tdt_stimulation_data_defaults_witness :
  exists name : string,
    Tdt.import_tdt_stimulation_data
      {| Tdt.LFP1 := Some {| Tdt.data := [[Float.of_Z 1]];
                             Tdt.fs := Q2Qc 2 |};
         Tdt.EOG1 := None; Tdt.NPr1 := None;
         Tdt.Wav1 := Some [Float.of_Z 0; Float.of_Z 1] |}
      0%Qc (Q2Qc 5)
    = inl (Tdt.UnboundLocalError name).
Proof.
  apply (proj2 (import_tdt_stimulation_data_defaults
                  {| Tdt.LFP1 := Some {| Tdt.data := [[Float.of_Z 1]];
                                         Tdt.fs := Q2Qc 2 |};
                     Tdt.EOG1 := None; Tdt.NPr1 := None;
                     Tdt.Wav1 := Some [Float.of_Z 0; Float.of_Z 1] |}
                  0%Qc (Q2Qc 5) ltac:(by left))
           [Float.of_Z 0; Float.of_Z 1]
           {| Tdt.data := [[Float.of_Z 1]]; Tdt.fs := Q2Qc 2 |});
    reflexivity.
Defined.

(** ** Reading Open Ephys recordings *)

Section OpenEphysImport.

Lemma reshape_concat {A} (a : list A) (n_samples n_ch : nat) :
  concat (map (fun r : nat => take n_samples (drop (r * n_samples) a))
            (seq 0 n_ch))
  = take (n_ch * n_samples) a.
Proof.
  induction n_ch as [| k IH]; [by rewrite take_0 |].
  rewrite seq_S, map_app, concat_app, IH. simpl.
  rewrite app_nil_r, take_take_drop. f_equal. lia.
Qed.

Lemma reshape_rows {A} (a : list A) (n_samples n_ch : nat) :
  (n_ch * n_samples)%nat = length a ->
  Forall (fun row : list A => length row = n_samples)
    (map (fun r : nat => take n_samples (drop (r * n_samples) a))
       (seq 0 n_ch)).
Proof.
  intros Hlen. apply Forall_forall. intros row Hrow.
  apply list_elem_of_fmap in Hrow as (r & -> & Hr).
  apply elem_of_seq in Hr.
  rewrite length_take, length_drop. nia.
Qed.

Lemma int_div_exact (a b : nat) :
  b <> 0%nat ->
  int_div a b = ok (Z.of_nat (a / b)) /\
  ((b * (a / b))%nat = a <-> (a mod b)%nat = 0%nat).
Proof.
  intros Hb. unfold int_div. destruct (decide (b = 0%nat)); [done |].
  split.
  - f_equal. rewrite Z.quot_div_nonneg by lia. by rewrite Nat2Z.inj_div.
  - pose proof (Nat.div_mod_eq a b). lia.
Qed.

Lemma position_lt (n : nat) (c : Z) (i : nat) :
  OpenEphys.position n c = Some i -> (i < n)%nat.
Proof.
  unfold OpenEphys.position. intros Hpos.
  destruct (decide (0 <= c < Z.of_nat n)); [simplify_eq; lia |].
  destruct (decide (- Z.of_nat n <= c < 0)); [simplify_eq; lia | done].
Qed.

Lemma position_is_Some (n : nat) (c : Z) :
  is_Some (OpenEphys.position n c) <-> - Z.of_nat n <= c < Z.of_nat n.
Proof.
  unfold OpenEphys.position.
  destruct (decide (0 <= c < Z.of_nat n)); [split; [lia | by eexists] |].
  destruct (decide (- Z.of_nat n <= c < 0)); [split; [lia | by eexists] |].
  split; [by intros [? ?] | lia].
Qed.

(** [mask[channels] = True] sets the positions asked for and leaves the
    others; one index out of bounds makes it fail. *)
Lemma set_true_spec (channels : list Z) :
  forall mask : list bool,
    (Forall (fun c => is_Some (OpenEphys.position (length mask) c)) channels ->
     OpenEphys.set_true mask channels
     = ok (imap (fun r b => b || requested (length mask) channels r) mask))
    /\ (~ Forall (fun c => is_Some (OpenEphys.position (length mask) c))
            channels ->
        OpenEphys.set_true mask channels
        = raise (IndexError "index is out of bounds")).
Proof.
  induction channels as [| c cs IH]; intros mask.
  - split; [| intros Hno; by destruct Hno].
    intros _. simpl. f_equal. apply list_eq. intros r.
    rewrite list_lookup_imap. destruct (mask !! r) as [b |]; [| done].
    simpl. by rewrite orb_false_r.
  - simpl. destruct (OpenEphys.position (length mask) c) as [i |] eqn:Hpos.
    + pose proof (position_lt _ _ _ Hpos) as Hi.
      destruct (IH (<[i := true]> mask)) as [IHok IHerr].
      rewrite length_insert in IHok, IHerr. split.
      * intros Hall. apply Forall_cons in Hall as [_ Hall].
        rewrite IHok by done. f_equal. apply list_eq. intros r.
        rewrite !list_lookup_imap.
        destruct (decide (r = i)) as [-> | Hne].
        -- rewrite list_lookup_insert_eq by done.
           destruct (lookup_lt_is_Some_2 mask i Hi) as [b ->]. simpl.
           rewrite bool_decide_eq_true_2 by done. simpl.
           by rewrite orb_true_r.
        -- rewrite list_lookup_insert_ne by done.
           destruct (mask !! r) as [b |]; [| done]. simpl.
           rewrite bool_decide_eq_false_2 by congruence. done.
      * intros Hno. apply IHerr. intros Hall. apply Hno.
        apply Forall_cons. split; [by eexists | done].
    + split; [| done].
      intros Hall. apply Forall_cons in Hall as [[? ?] _]. congruence.
Qed.

Lemma imap_replicate_false (f : nat -> bool) (n : nat) :
  imap (fun r b => b || f r) (replicate n false) = map f (seq 0 n).
Proof.
  apply list_eq. intros r. rewrite list_lookup_imap, list_lookup_fmap.
  destruct (decide (r < n)%nat) as [Hr | Hr].
  - rewrite lookup_replicate_2 by done. by rewrite lookup_seq_lt.
  - assert (replicate n false !! r = None) as ->
      by (apply lookup_replicate_None; lia).
    by rewrite lookup_seq_ge by lia.
Qed.

Lemma select_rows_sublist {A} (a : list (list A)) :
  forall mask : list bool, sublist (OpenEphys.select_rows a mask) a.
Proof.
  induction a as [| row a IH]; intros [| b mask]; simpl;
    try apply sublist_nil_l.
  destruct b; [by apply sublist_skip | by apply sublist_cons].
Qed.

Lemma select_rows_elem {A} (a : list (list A)) :
  forall (mask : list bool) (r : nat) (row : list A),
    a !! r = Some row -> mask !! r = Some true ->
    row ∈ OpenEphys.select_rows a mask.
Proof.
  induction a as [| row0 a IH]; intros [| b mask] [| r] row Ha Hm;
    simplify_eq/=; try done.
  - apply elem_of_cons. by left.
  - destruct b; [apply elem_of_cons; right |]; by eapply IH.
Qed.

Lemma select_rows_elem_inv {A} (a : list (list A)) :
  forall (mask : list bool) (row : list A),
    row ∈ OpenEphys.select_rows a mask ->
    exists r : nat, a !! r = Some row /\ mask !! r = Some true.
Proof.
  induction a as [| row0 a IH]; intros [| b mask] row Hrow; simpl in Hrow;
    try by apply elem_of_nil in Hrow.
  destruct b.
  - apply elem_of_cons in Hrow as [-> | Hrow]; [by exists 0%nat |].
    destruct (IH _ _ Hrow) as (r & Hr & Hm). by exists (S r).
  - destruct (IH _ _ Hrow) as (r & Hr & Hm). by exists (S r).
Qed.

Lemma requested_Permutation (n_ch : nat) (channels channels' : list Z)
    (r : nat) :
  channels ≡ₚ channels' ->
  requested n_ch channels r = requested n_ch channels' r.
Proof.
  unfold requested. induction 1 as [| c l l' _ IH | c c' l | l l' l'' _ IH1 _ IH2];
    simpl; [done | by rewrite IH | | congruence].
  by destruct (bool_decide _), (bool_decide _).
Qed.

Lemma import_open_ephys_unfold (fs : Qc) (n_ch : nat)
    (neural_data_flat : list Z) (au : list (list Z)) (fs' : Qc) :
  OpenEphys.import_open_ephys_channel_data fs n_ch neural_data_flat None
  = ok (fs', au) ->
  fs' = fs /\ length au = n_ch /\
  forall c cs,
    OpenEphys.import_open_ephys_channel_data fs n_ch neural_data_flat
      (Some (c :: cs))
    = let* mask := OpenEphys.set_true (replicate n_ch false) (c :: cs) in
      ok (fs, OpenEphys.select_rows au mask).
Proof.
  unfold OpenEphys.import_open_ephys_channel_data.
  destruct (int_div _ _) as [e | n_samples]; [done |]. simpl.
  destruct (OpenEphys.reshape _ _ _) as [e | au'] eqn:Hau; [done |]. simpl.
  intros [= <- <-]. split_and!; [done | | done].
  unfold OpenEphys.reshape in Hau.
  destruct (decide _); [| done]. injection Hau as <-.
  by rewrite length_map, length_seq.
Qed.

Lemma import_open_ephys_channels (fs : Qc) (n_ch : nat)
    (neural_data_flat : list Z) (au : list (list Z)) (channels : list Z) :
  OpenEphys.import_open_ephys_channel_data fs n_ch neural_data_flat None
  = ok (fs, au) ->
  channels <> [] ->
  OpenEphys.import_open_ephys_channel_data fs n_ch neural_data_flat
    (Some channels)
  = if decide (Forall (fun c => - Z.of_nat n_ch <= c < Z.of_nat n_ch)
                 channels)
    then ok (fs, OpenEphys.select_rows au
                   (map (requested n_ch channels) (seq 0 n_ch)))
    else raise (IndexError "index is out of bounds").
Proof.
  intros Hall Hne. destruct channels as [| c cs]; [done |].
  destruct (import_open_ephys_unfold _ _ _ _ _ Hall) as (_ & _ & ->).
  destruct (set_true_spec (c :: cs) (replicate n_ch false)) as [Hok Herr].
  rewrite length_replicate in Hok, Herr.
  assert (Forall (fun c0 => is_Some (OpenEphys.position n_ch c0)) (c :: cs)
          <-> Forall (fun c0 => - Z.of_nat n_ch <= c0 < Z.of_nat n_ch)
                (c :: cs)) as Hiff.
  { rewrite !Forall_forall. split; intros H x Hx;
      apply position_is_Some; by apply H. }
  destruct (decide _) as [Hin | Hout].
  - rewrite Hok by (by apply Hiff). simpl. by rewrite imap_replicate_false.
  - rewrite Herr; [done |]. intros H. by apply Hout, Hiff.
Qed.

End OpenEphysImport.

(** X21. With no channels asked for, [import_open_ephys_channel_data]
    succeeds exactly when the channel count is not zero and divides the
    number of values read; it then returns one row per channel, all of the
    same length, which put one after the other give back the flat data.
    A channel count of zero raises the [ZeroDivisionError], one that does
    not divide the number of values the [ValueError] of [np.reshape]. *)
Theorem import_open_ephys_channel_data_reshape (fs : Qc) (n_ch : nat)
    (neural_data_flat : list Z) :
  match OpenEphys.import_open_ephys_channel_data fs n_ch neural_data_flat
          None with
  | inr (fs', neural_data_au) =>
      fs' = fs /\ n_ch <> 0%nat /\
      (length neural_data_flat mod n_ch)%nat = 0%nat /\
      length neural_data_au = n_ch /\
      Forall (fun row : list Z =>
                length row = (length neural_data_flat / n_ch)%nat)
        neural_data_au /\
      concat neural_data_au = neural_data_flat
  | inl e =>
      (e = ZeroDivisionError /\ n_ch = 0%nat) \/
      (e = ValueError "cannot reshape array" /\ n_ch <> 0%nat /\
       (length neural_data_flat mod n_ch)%nat <> 0%nat)
  end.
Proof.
  unfold OpenEphys.import_open_ephys_channel_data.
  destruct (decide (n_ch = 0%nat)) as [-> | Hn]; [by left |].
  destruct (int_div_exact (length neural_data_flat) n_ch Hn) as [-> Hex].
  simpl. rewrite Nat2Z.id. unfold OpenEphys.reshape.
  destruct (decide _) as [Hlen | Hlen]; simpl.
  - split_and!; try done.
    + by apply Hex.
    + by rewrite length_map, length_seq.
    + by apply reshape_rows.
    + rewrite reshape_concat, Hlen. by rewrite firstn_all.
  - right. split_and!; try done. intros Hmod. by apply Hlen, Hex.
Qed.

(** X22. When channels are asked for, [import_open_ephys_channel_data]
    returns the rows of the full array that one of the indices stands for
    (a negative index counting from the last row), each row once and in
    the order of the file, whatever the order of the indices and however
    often one is repeated; so two lists of indices that are rearrangements
    of each other give the same result.  One index out of bounds raises
    the [IndexError]. *)
Theorem import_open_ephys_channel_data_channels (fs : Qc) (n_ch : nat)
    (neural_data_flat : list Z) (neural_data_au : list (list Z))
    (channels : list Z) :
  OpenEphys.import_open_ephys_channel_data fs n_ch neural_data_flat None
  = ok (fs, neural_data_au) ->
  channels <> [] ->
  (Forall (fun c => - Z.of_nat n_ch <= c < Z.of_nat n_ch) channels ->
   exists picked : list (list Z),
     OpenEphys.import_open_ephys_channel_data fs n_ch neural_data_flat
       (Some channels) = ok (fs, picked) /\
     sublist picked neural_data_au /\
     (forall row : list Z,
        row ∈ picked ->
        exists r : nat,
          neural_data_au !! r = Some row /\
          requested n_ch channels r = true) /\
     (forall (r : nat) (row : list Z),
        neural_data_au !! r = Some row ->
        requested n_ch channels r = true -> row ∈ picked)) /\
  (~ Forall (fun c => - Z.of_nat n_ch <= c < Z.of_nat n_ch) channels ->
   OpenEphys.import_open_ephys_channel_data fs n_ch neural_data_flat
     (Some channels) = raise (IndexError "index is out of bounds")) /\
  (forall channels' : list Z,
     channels' ≡ₚ channels ->
     OpenEphys.import_open_ephys_channel_data fs n_ch neural_data_flat
       (Some channels')
     = OpenEphys.import_open_ephys_channel_data fs n_ch neural_data_flat
         (Some channels)).
Proof.
  intros Hall Hne.
  pose proof (import_open_ephys_channels _ _ _ _ channels Hall Hne) as Hsel.
  destruct (import_open_ephys_unfold _ _ _ _ _ Hall) as (_ & Hrows & _).
  split_and!.
  - intros Hin. rewrite decide_True in Hsel by done.
    eexists. split; [exact Hsel |]. split_and!.
    + apply select_rows_sublist.
    + intros row Hrow.
      apply select_rows_elem_inv in Hrow as (r & Hr & Hm).
      exists r. split; [done |].
      rewrite list_lookup_fmap in Hm.
      destruct (seq 0 n_ch !! r) as [r' |] eqn:Hseq; [| done].
      apply lookup_seq in Hseq as [-> _]. by simplify_eq/=.
    + intros r row Hr Hreq. eapply select_rows_elem; [exact Hr |].
      rewrite list_lookup_fmap, lookup_seq_lt; [by simpl; rewrite Hreq |].
      apply lookup_lt_Some in Hr. lia.
  - intros Hout. by rewrite decide_False in Hsel.
  - intros channels' Hperm. rewrite Hsel.
    rewrite (import_open_ephys_channels _ _ _ _ channels' Hall).
    + assert (Forall (fun c => - Z.of_nat n_ch <= c < Z.of_nat n_ch)
                channels'
              <-> Forall (fun c => - Z.of_nat n_ch <= c < Z.of_nat n_ch)
                    channels) as Hiff by (by rewrite Hperm).
      destruct (decide _) as [H1 | H1], (decide _) as [H2 | H2];
        try done; try (by destruct H2; apply Hiff);
        try (by destruct H1; apply Hiff).
      do 3 f_equal. apply map_ext. intros r.
      by apply requested_Permutation.
    + intros ->. by apply Permutation_nil_l in Hperm.
Qed.

Lemma import_open_ephys_channel_data_channels_witness :
  OpenEphys.import_open_ephys_channel_data (Q2Qc 30000) 3 [1; 2; 3; 4; 5; 6]
    (Some [-1; 0])
  = OpenEphys.import_open_ephys_channel_data (Q2Qc 30000) 3
      [1; 2; 3; 4; 5; 6] (Some [0; -1]).
Proof.
  apply (proj2 (proj2 (import_open_ephys_channel_data_channels
                         (Q2Qc 30000) 3 [1; 2; 3; 4; 5; 6]
                         [[1; 2]; [3; 4]; [5; 6]] [0; -1]
                         eq_refl ltac:(discriminate)))).
  apply perm_swap.
Defined.

(** ** Gait cycles: what a failed call leaves behind *)

Section GaitFailure.

(** Once one selection under a scorer has worked, another one under the
    same scorer can only miss its marker or its axis. *)
Lemma select_error_key (df : list (label * list float))
    (scorer marker marker' axis : string) (trace : list float) (e : exn) :
  select df scorer marker axis = ok trace ->
  select df scorer marker' axis = inl e ->
  e = KeyError marker' \/ e = KeyError axis.
Proof.
  unfold select. destruct (List.filter _ df) as [| c by_scorer]; [done |].
  intros _.
  destruct (List.filter _ (c :: by_scorer)) as [| c' by_marker];
    [intros [= <-]; by left |].
  destruct (List.filter _ (c' :: by_marker)); [| done].
  intros [= <-]. by right.
Qed.

Lemma gait_bounds_failure
    (get_toe_lift_landing : list float -> float -> toe_events)
    (self : KinematicDataRun) (left_marker right_marker axis : string)
    (e : exn) :
  snd (compute_gait_cycles_bounds get_toe_lift_landing self
         left_marker right_marker axis) = inl e ->
  fst (compute_gait_cycles_bounds get_toe_lift_landing self
         left_marker right_marker axis) = self
  \/ exists left_trace : list float,
       select (markers_df self) (scorer self) left_marker axis
       = ok left_trace /\
       fst (compute_gait_cycles_bounds get_toe_lift_landing self
              left_marker right_marker axis)
       = set_left self (get_toe_lift_landing left_trace (run_fs self)) /\
       (e = KeyError right_marker \/ e = KeyError axis).
Proof.
  unfold compute_gait_cycles_bounds.
  destruct (negb _); [by left |]. destruct (negb _); [by left |].
  destruct (select _ _ left_marker _) as [e1 | left_trace] eqn:Hleft;
    [by left |].
  cbn [set_left markers_df scorer run_fs].
  destruct (select _ _ right_marker _) as [e2 | right_trace] eqn:Hright;
    [| done].
  simpl. intros [= ->]. right. exists left_trace. split_and!; [done.. |].
  by eapply select_error_key.
Qed.

Lemma legacy_gait_bounds_failure
    (get_toe_lift_landing : list float -> float -> toe_events)
    (self : LegacyRun) (left_marker right_marker : string)
    (recording_fs : float) (e : exn) :
  snd (legacy_compute_gait_cycles_bounds get_toe_lift_landing self
         left_marker right_marker recording_fs) = inl e ->
  fst (legacy_compute_gait_cycles_bounds get_toe_lift_landing self
         left_marker right_marker recording_fs) = self
  /\ exists msg : string, e = ValueError msg.
Proof.
  unfold legacy_compute_gait_cycles_bounds.
  destruct (bool_decide_reflect (left_marker ∈ legacy_columns self))
    as [Hleft | Hleft]; simpl; [| intros [= <-]; by eauto].
  destruct (bool_decide_reflect (right_marker ∈ legacy_columns self))
    as [Hright | Hright]; simpl; [| intros [= <-]; by eauto].
  destruct (legacy_select_present _ _ Hleft) as [left_trace ->].
  cbn [legacy_markers_df].
  destruct (legacy_select_present _ _ Hright) as [right_trace ->].
  done.
Qed.

End GaitFailure.

(** X23. A call of [compute_gait_cycles_bounds] that raises never touches
    the events of the right foot.  In the package it either leaves the run
    as it was, or it has already stored the events of the left foot: that
    happens when the left trace was found and the right one was not, the
    [KeyError] then naming the right marker or the axis.  In the module at
    the repository root a call that raises leaves the run unchanged, and
    what it raises is a [ValueError]. *)
Theorem compute_gait_cycles_bounds_failure
    (get_toe_lift_landing : list float -> float -> toe_events) :
  (forall (self : KinematicDataRun) (left_marker right_marker axis : string)
          (e : exn),
     snd (compute_gait_cycles_bounds get_toe_lift_landing self
            left_marker right_marker axis) = inl e ->
     let self' :=
       fst (compute_gait_cycles_bounds get_toe_lift_landing self
              left_marker right_marker axis) in
     (right_mtp_lift self' = right_mtp_lift self /\
      right_mtp_land self' = right_mtp_land self /\
      right_mtp_max self' = right_mtp_max self) /\
     (self' = self
      \/ exists left_trace : list float,
           select (markers_df self) (scorer self) left_marker axis
           = ok left_trace /\
           self'
           = set_left self (get_toe_lift_landing left_trace (run_fs self)) /\
           (e = KeyError right_marker \/ e = KeyError axis))) /\
  (forall (self : LegacyRun) (left_marker right_marker : string)
          (recording_fs : float) (e : exn),
     snd (legacy_compute_gait_cycles_bounds get_toe_lift_landing self
            left_marker right_marker recording_fs) = inl e ->
     fst (legacy_compute_gait_cycles_bounds get_toe_lift_landing self
            left_marker right_marker recording_fs) = self
     /\ exists msg : string, e = ValueError msg).
Proof.
  split.
  - intros self left_marker right_marker axis e Hraise self'.
    pose proof (gait_bounds_failure _ _ _ _ _ _ Hraise) as Hcases.
    fold self' in Hcases. split; [| exact Hcases].
    destruct Hcases as [-> | (left_trace & _ & -> & _)]; done.
  - intros self left_marker right_marker recording_fs e.
    apply legacy_gait_bounds_failure.
Qed.

Lemma compute_gait_cycles_bounds_failure_witness :
  fst (compute_gait_cycles_bounds sample_detector sample_run_no_axis
         "lmtp" "rmtp" "z")
  = set_left sample_run_no_axis ([3], [1], [2]).
Proof.
  destruct (proj1 (compute_gait_cycles_bounds_failure sample_detector)
              sample_run_no_axis "lmtp" "rmtp" "z" (KeyError "z") eq_refl)
    as [_ [Hsame | (left_trace & Hleft & Hset & _)]].
  - discriminate Hsame.
  - injection Hleft as <-. exact Hset.
Defined.

(** ** Stimulation blocks: failures and the count of zero *)

Section BlockEdges.

Lemma stim_blocks_unfold (neudata : NeuralData) (n_amp_tested pulses : Z)
    (time_stim : Qc) :
  (length (sync_shape neudata) <= 1)%nat ->
  get_timestamps_stim_blocks neudata n_amp_tested pulses time_stim
  = let* onset :=
      Np.slice_step
        (get_stim_timestamps (sync_data neudata)
           (Some (n_amp_tested * pulses))) pulses in
    ok (map (fun o => (o, o + time_to_sample time_stim (fs neudata)
                                false true)) onset).
Proof.
  intros Hshape. unfold get_timestamps_stim_blocks.
  destruct (decide _) as [Hmulti | _]; [lia | done].
Qed.

Lemma stim_timestamps_untrimmed (sync_ch : list float) (N : Z) :
  Z.of_nat (length (get_stim_timestamps sync_ch None)) <= N ->
  get_stim_timestamps sync_ch (Some N) = get_stim_timestamps sync_ch None.
Proof.
  intros Hlen. destruct (decide (N = 0)) as [-> | Hne]; [done |].
  rewrite get_stim_timestamps_take by lia. apply take_ge. lia.
Qed.

End BlockEdges.

(** X24. [get_timestamps_stim_blocks] fails in two cases only, each with a
    [ValueError]: the sync data has more than one dimension, or [pulses]
    is zero, which is a zero slice step.  A negative [pulses] gives no
    block.  With [n_amp_tested = 0] the expected count is zero, so the
    timestamps are not trimmed: the blocks are those of any count that
    covers all the rising edges, not none. *)
Theorem get_timestamps_stim_blocks_failures (neudata : NeuralData)
    (n_amp_tested pulses : Z) (time_stim : Qc) :
  (forall e : exn,
     get_timestamps_stim_blocks neudata n_amp_tested pulses time_stim
     = inl e
     <-> ((1 < length (sync_shape neudata))%nat
          /\ e = ValueError multichannel_msg)
         \/ ((length (sync_shape neudata) <= 1)%nat /\ pulses = 0
             /\ e = ValueError "slice step cannot be zero")) /\
  ((length (sync_shape neudata) <= 1)%nat -> pulses < 0 ->
   get_timestamps_stim_blocks neudata n_amp_tested pulses time_stim
   = ok []) /\
  ((length (sync_shape neudata) <= 1)%nat -> 1 <= pulses ->
   forall n : Z,
     Z.of_nat (length (get_stim_timestamps (sync_data neudata) None))
     <= n * pulses ->
     get_timestamps_stim_blocks neudata 0 pulses time_stim
     = get_timestamps_stim_blocks neudata n pulses time_stim).
Proof.
  split_and!.
  - intros e. unfold get_timestamps_stim_blocks.
    destruct (decide _) as [Hmulti | Hone].
    + split; [intros [= <-]; by left |].
      intros [[_ ->] | (? & _)]; [done | lia].
    + unfold Np.slice_step.
      destruct (Z.eqb_spec pulses 0) as [Hzero | Hnz]; simpl.
      * split; [intros [= <-]; right; split_and!; [lia | done..] |].
        intros [[? _] | (_ & _ & ->)]; [lia | done].
      * destruct (Z.ltb_spec pulses 0); simpl;
          (split; [done | intros [[? _] | (_ & ? & _)]; [lia | done]]).
  - intros Hshape Hneg. rewrite stim_blocks_unfold by done.
    unfold Np.slice_step.
    destruct (Z.eqb_spec pulses 0) as [? | _]; [lia |].
    destruct (Z.ltb_spec pulses 0) as [_ | ?]; [done | lia].
  - intros Hshape Hpulses n Hcover. rewrite !stim_blocks_unfold by done.
    rewrite (stim_timestamps_untrimmed _ (n * pulses)) by done.
    by change (0 * pulses) with 0.
Qed.

Lemma get_timestamps_stim_blocks_failures_witness :
  get_timestamps_stim_blocks
    {| sync_data := [Float.of_Z 0; Float.of_Z 1; Float.of_Z 0;
                     Float.of_Z 1; Float.of_Z 0; Float.of_Z 1];
       sync_shape := [6%nat];
       fs := Q2Qc 10 |} 0 1 (Q2Qc 2)
  = get_timestamps_stim_blocks
      {| sync_data := [Float.of_Z 0; Float.of_Z 1; Float.of_Z 0;
                       Float.of_Z 1; Float.of_Z 0; Float.of_Z 1];
         sync_shape := [6%nat];
         fs := Q2Qc 10 |} 3 1 (Q2Qc 2).
Proof.
  apply (proj2 (proj2 (get_timestamps_stim_blocks_failures
                         {| sync_data := [Float.of_Z 0; Float.of_Z 1;
                                          Float.of_Z 0; Float.of_Z 1;
                                          Float.of_Z 0; Float.of_Z 1];
                            sync_shape := [6%nat];
                            fs := Q2Qc 10 |} 0 1 (Q2Qc 2)))).
  - simpl. lia.
  - lia.
  - assert (length (get_stim_timestamps
                      [Float.of_Z 0; Float.of_Z 1; Float.of_Z 0;
                       Float.of_Z 1; Float.of_Z 0; Float.of_Z 1] None)
            = 3%nat) as Hlen by reflexivity.
    cbn [sync_data]. rewrite Hlen. lia.
Defined.
